(** * ffmpeg-youtube: the Makefile generator [bin/automake.py]

    A shallow embedding of the [FFMPEG] class of [bin/automake.py] and the
    properties of its string assembly.

    The program reads a JSON document, so every value it handles is one of
    the Python objects [json.load] produces.  They are modelled by [pyval].
    Python dictionaries keep insertion order and are modelled by association
    lists; the methods that mutate the configuration in place return the
    updated value next to their result (explicit state passing).  A raised
    exception is the [Raise] outcome of the [result] type.  A [string] is a
    sequence of characters, one [ascii] each.  The date printed by the
    overlay comes from the environment ([POST_DATE], or the clock) and is a
    parameter of the functions that use it. *)

From Stdlib Require Import String Ascii List ZArith Bool Arith Lia.
From Stdlib Require Import DecimalString Decimal DecimalNat DecimalZ.
Import ListNotations.
Open Scope list_scope.
Open Scope string_scope.

(** ** Python values and exceptions *)

(** A float is carried as the text Python prints for it ([repr]): the
    program never computes with floats, it only tests their type and
    formats them. *)
#[warning="-register-all"]
Inductive pyval : Type :=
| PNone
| PBool (b : bool)
| PInt (z : Z)
| PFloat (text : string)
| PStr (s : string)
| PList (l : list pyval)
| PDict (d : list (string * pyval)).

Inductive exn : Type :=
| AssertionError (msg : string)
| ValueError (msg : string)
| TypeError
| KeyError (key : string)
| AttributeError.

Inductive result (A : Type) : Type :=
| Ok (a : A)
| Raise (e : exn).
Arguments Ok {A} a.
Arguments Raise {A} e.

Definition bind {A B : Type} (m : result A) (k : A -> result B) : result B :=
  match m with
  | Ok a => k a
  | Raise e => Raise e
  end.

Notation "x <- m ;; k" := (bind m (fun x => k))
  (at level 61, m at next level, right associativity).
Notation "' p <- m ;; k" := (bind m (fun p => k))
  (at level 61, p pattern, m at next level, right associativity).

Fixpoint mapM {A B : Type} (f : A -> result B) (l : list A) : result (list B) :=
  match l with
  | [] => Ok []
  | a :: l' => b <- f a ;; bs <- mapM f l' ;; Ok (b :: bs)
  end.

(** ** Characters and text *)

Definition dquote : string := String (ascii_of_nat 34) "".
Definition newline : string := String (ascii_of_nat 10) "".
Definition tab : string := String (ascii_of_nat 9) "".

(** The characters of a string, each as a one-character string: what
    iterating over a Python [str] yields. *)
Fixpoint chars (s : string) : list string :=
  match s with
  | EmptyString => []
  | String c s' => String c "" :: chars s'
  end.

(** [needle in haystack] on two strings. *)
Fixpoint substring_in (needle hay : string) : bool :=
  prefix needle hay ||
  match hay with
  | EmptyString => false
  | String _ hay' => substring_in needle hay'
  end.

Definition str_of_nat (n : nat) : string := NilZero.string_of_uint (Nat.to_uint n).
Definition str_of_Z (z : Z) : string := NilZero.string_of_int (Z.to_int z).

(** *** [repr] and [str] *)

Definition hex_digit (n : nat) : ascii :=
  if Nat.ltb n 10 then ascii_of_nat (48 + n) else ascii_of_nat (87 + n).

Definition repr_char (quote : ascii) (c : ascii) : string :=
  let n := nat_of_ascii c in
  if Ascii.eqb c "\" then "\\"
  else if Ascii.eqb c quote then String "\" (String quote "")
  else if Nat.eqb n 10 then "\n"
  else if Nat.eqb n 13 then "\r"
  else if Nat.eqb n 9 then "\t"
  else if Nat.ltb n 32 || Nat.eqb n 127 then
    String "\" (String "x" (String (hex_digit (n / 16)) (String (hex_digit (n mod 16)) "")))
  else String c "".

Fixpoint repr_body (quote : ascii) (s : string) : string :=
  match s with
  | EmptyString => ""
  | String c s' => repr_char quote c ++ repr_body quote s'
  end.

(** [repr] of a [str]: single quotes, unless the text has a single quote
    and no double quote. *)
Definition repr_str (s : string) : string :=
  let quote :=
    if substring_in "'" s && negb (substring_in dquote s)
    then ascii_of_nat 34 else "'"%char in
  String quote (repr_body quote s ++ String quote "").

Fixpoint py_repr (v : pyval) : string :=
  match v with
  | PNone => "None"
  | PBool true => "True"
  | PBool false => "False"
  | PInt z => str_of_Z z
  | PFloat text => text
  | PStr s => repr_str s
  | PList l => "[" ++ String.concat ", " (map py_repr l) ++ "]"
  | PDict d =>
      "{" ++ String.concat ", " (map (fun '(k, x) => repr_str k ++ ": " ++ py_repr x) d) ++ "}"
  end.

(** [str(v)], which is what a [%s] conversion prints. *)
Definition py_str (v : pyval) : string :=
  match v with
  | PStr s => s
  | _ => py_repr v
  end.

(** [str(type(v))]. *)
Definition py_type (v : pyval) : string :=
  match v with
  | PNone => "<class 'NoneType'>"
  | PBool _ => "<class 'bool'>"
  | PInt _ => "<class 'int'>"
  | PFloat _ => "<class 'float'>"
  | PStr _ => "<class 'str'>"
  | PList _ => "<class 'list'>"
  | PDict _ => "<class 'dict'>"
  end.

(** ** Dictionaries *)

Fixpoint dict_get (d : list (string * pyval)) (k : string) : option pyval :=
  match d with
  | [] => None
  | (k', v) :: d' => if String.eqb k' k then Some v else dict_get d' k
  end.

Definition dict_has (d : list (string * pyval)) (k : string) : bool :=
  match dict_get d k with
  | Some _ => true
  | None => false
  end.

(** [d[k] = v]: the value is replaced where the key stands, a new key goes
    last. *)
Fixpoint dict_set (d : list (string * pyval)) (k : string) (v : pyval)
  : list (string * pyval) :=
  match d with
  | [] => [(k, v)]
  | (k', v') :: d' =>
      if String.eqb k' k then (k', v) :: d' else (k', v') :: dict_set d' k v
  end.

(** [del d[k]], for a key that is present.  The keys of a dictionary are
    unique, so at most one binding goes. *)
Fixpoint dict_del (d : list (string * pyval)) (k : string) : list (string * pyval) :=
  match d with
  | [] => []
  | (k', v') :: d' =>
      if String.eqb k' k then dict_del d' k else (k', v') :: dict_del d' k
  end.

(** [v[k]] for a string key. *)
Definition getitem (v : pyval) (k : string) : result pyval :=
  match v with
  | PDict d =>
      match dict_get d k with
      | Some x => Ok x
      | None => Raise (KeyError k)
      end
  | _ => Raise TypeError
  end.

(** [v.get(k, default)]: only dictionaries have the method. *)
Definition get_default (v : pyval) (k : string) (default : pyval) : result pyval :=
  match v with
  | PDict d =>
      match dict_get d k with
      | Some x => Ok x
      | None => Ok default
      end
  | _ => Raise AttributeError
  end.

(** ** Iteration, [join], [in] and [+] *)

(** What a [for] loop (or [join]) sees of a value. *)
Definition py_iter (v : pyval) : result (list pyval) :=
  match v with
  | PList l => Ok l
  | PStr s => Ok (map PStr (chars s))
  | PDict d => Ok (map (fun kv => PStr (fst kv)) d)
  | _ => Raise TypeError
  end.

Definition as_str (v : pyval) : result string :=
  match v with
  | PStr s => Ok s
  | _ => Raise TypeError
  end.

(** [sep.join(v)]: every item has to be a [str]. *)
Definition str_join (sep : string) (v : pyval) : result string :=
  items <- py_iter v ;;
  strs <- mapM as_str items ;;
  Ok (String.concat sep strs).

Definition is_str (s : string) (v : pyval) : bool :=
  match v with
  | PStr s' => String.eqb s s'
  | _ => false
  end.

(** [s in v] for a string [s]. *)
Definition py_in (s : string) (v : pyval) : result bool :=
  match v with
  | PList l => Ok (existsb (is_str s) l)
  | PStr hay => Ok (substring_in s hay)
  | PDict d => Ok (dict_has d s)
  | _ => Raise TypeError
  end.

(** [a + b] where one side is known to be a [str]. *)
Definition str_add (a b : pyval) : result string :=
  match a, b with
  | PStr x, PStr y => Ok (x ++ y)
  | _, _ => Raise TypeError
  end.

(** ** [FFMPEG.parseFunction] *)

Definition parseFunction (unit : pyval) : result string :=
  match unit with
  | PDict d =>
      match d with
      | [(function, v)] =>
          args <-
            match v with
            | PDict items =>
                l <- mapM (fun '(k, a) => str_join "=" (PList [PStr k; a])) items ;;
                Ok (PList (map PStr l))
            | PList _ => s <- str_join ":" v ;; Ok (PStr s)
            | PStr _ | PInt _ | PFloat _ | PBool _ => Ok v
            | PNone =>
                Raise (ValueError ("Unknown type " ++ dquote ++ py_type v ++ dquote
                                   ++ " from unit[" ++ function ++ "]!"))
            end ;;
          joined <- str_join ":" args ;;
          Ok (function ++ "=" ++ joined)
      | _ => Raise (AssertionError "`unit` must have only 1 key that is the function name!")
      end
  | _ => Raise (AssertionError "`unit` must be a dictionary!")
  end.

(** ** [FFMPEG.parseFilterComplex] *)

(** One turn of the loop: the fragment appended to [result]. *)
Definition filterFragment (fc : pyval) : result string :=
  match fc with
  | PStr s => Ok s
  | _ =>
      istream <- getitem fc "istream" ;;
      func <- getitem fc "func" ;;
      f <- parseFunction func ;;
      left <- str_add istream (PStr f) ;;
      ostream <- getitem fc "ostream" ;;
      str_add (PStr left) ostream
  end.

Fixpoint filterLoop (fcs : list pyval) (acc : list string) : result (list string) :=
  match fcs with
  | [] => Ok acc
  | fc :: rest => frag <- filterFragment fc ;; filterLoop rest (acc ++ [frag])%list
  end.

Definition parseFilterComplex (filter_complexes : list pyval) : result string :=
  acc <- filterLoop filter_complexes [] ;;
  Ok (String.concat ";" acc).

(** ** [FFMPEG._genVideoCmd] *)

Definition lookup (d : list (string * pyval)) (k : string) : result pyval :=
  getitem (PDict d) k.

Definition dict_get_default (d : list (string * pyval)) (k : string) (default : pyval)
  : pyval :=
  match dict_get d k with
  | Some x => x
  | None => default
  end.

(** One turn of the loop over [config['input']]: the tokens appended to
    [result] and the entry as the turn leaves it.  A structured entry loses
    its ['i'] key ([del video['i']]). *)
Definition inputEntry (video : pyval) : result (list pyval * pyval) :=
  match video with
  | PDict d =>
      inputVideo <- lookup d "i" ;;
      let d' := dict_del d "i" in
      Ok ((map (fun '(opt, val) => PStr ("-" ++ opt ++ " " ++ py_str val)) d'
           ++ [PStr ("-i " ++ py_str inputVideo)])%list,
          PDict d')
  | _ => Ok ([PStr "-i"; video], video)
  end.

Fixpoint inputLoop (videos : list pyval) (res : list pyval)
  : result (list pyval * list pyval) :=
  match videos with
  | [] => Ok (res, [])
  | video :: rest =>
      '(toks, video') <- inputEntry video ;;
      '(res', rest') <- inputLoop rest (res ++ toks)%list ;;
      Ok (res', video' :: rest')
  end.

Definition default_scale : string := "scale=720x1280,setsar=1:1".

(** The method, block by block.  Each block takes the list [result] as the
    previous one left it and returns it with its tokens appended. *)

(** The first two assignments: [attributes] and [require] get their
    defaults. *)
Definition cmd_defaults (d : list (string * pyval)) : list (string * pyval) :=
  let d := dict_set d "attributes" (dict_get_default d "attributes" (PList [])) in
  dict_set d "require" (dict_get_default d "require" (PStr "")).

(** The input flags. *)
Definition cmd_inputs (d : list (string * pyval)) (res : list pyval)
  : result (list pyval * list (string * pyval)) :=
  input <- lookup d "input" ;;
  match input with
  | PList videos =>
      '(res', videos') <- inputLoop videos res ;;
      Ok (res', dict_set d "input" (PList videos'))
  | _ => Ok ((res ++ [PStr "-i"; input])%list, d)
  end.

(** The filter chain with its stream maps, or the default scale filter. *)
Definition cmd_filter (d : list (string * pyval)) (res : list pyval)
  : result (list pyval) :=
  match dict_get d "filter_complex" with
  | Some fc =>
      let res := (res ++ [PStr "-filter_complex"])%list in
      res <-
        match fc with
        | PStr _ => Ok (res ++ [fc])%list
        | PList l =>
            s <- parseFilterComplex l ;;
            Ok (res ++ [PStr (dquote ++ s ++ dquote)])%list
        | _ => Ok res
        end ;;
      no_audio <- py_in "no-audio" (dict_get_default d "attributes" (PList [])) ;;
      let res :=
        if negb no_audio then (res ++ [PStr "-map"; PStr "[audio]"])%list else res in
      no_video <- py_in "no-video" (dict_get_default d "attributes" (PList [])) ;;
      Ok (if negb no_video then (res ++ [PStr "-map"; PStr "[video]"])%list else res)
  | None => Ok (res ++ [PStr "-vf"; PStr default_scale])%list
  end.

(** The codec flags. *)
Definition cmd_codecs (d : list (string * pyval)) (res : list pyval)
  : result (list pyval) :=
  no_audio <- py_in "no-audio" (dict_get_default d "attributes" (PList [])) ;;
  res <-
    (if negb no_audio then
       codec <- get_default (dict_get_default d "codec" (PDict [])) "audio" (PStr "aac") ;;
       Ok (res ++ [PStr "-c:a"; codec])%list
     else Ok res) ;;
  no_video <- py_in "no-video" (dict_get_default d "attributes" (PList [])) ;;
  if negb no_video then
    codec <- get_default (dict_get_default d "codec" (PDict [])) "video" (PStr "h264") ;;
    Ok (res ++ [PStr "-c:v"; codec])%list
  else Ok res.

(** Metadata, vsync, movflags and the output. *)
Definition cmd_tail (d : list (string * pyval)) (res : list pyval)
  : result (list pyval) :=
  let res := (res ++ [PStr "-map_metadata"; PStr "-1"])%list in
  attributes <- lookup d "attributes" ;;
  vsync <- py_in "vsync" attributes ;;
  let res := if vsync then (res ++ [PStr "-vsync 2"])%list else res in
  res <-
    match dict_get d "movflags" with
    | Some flags =>
        movflags <- str_join " " flags ;;
        Ok (res ++ [PStr ("-movflags " ++ movflags)])%list
    | None => Ok res
    end ;;
  output <- lookup d "output" ;;
  Ok (res ++ [PStr "-y"; output])%list.

(** The command of one clip and the clip as the call leaves it. *)
Definition genVideoCmd (config : pyval) : result (string * pyval) :=
  match config with
  | PDict d =>
      let res := [PStr "ffmpeg"; PStr "-hide_banner"] in
      let d := cmd_defaults d in
      '(res, d) <- cmd_inputs d res ;;
      res <- cmd_filter d res ;;
      res <- cmd_codecs d res ;;
      res <- cmd_tail d res ;;
      ffmpeg <- str_join " " (PList res) ;;
      Ok (ffmpeg, PDict (dict_set d "ffmpeg" (PStr ffmpeg)))
  | _ => Raise AttributeError
  end.

(** ** [FFMPEG._buildVideoCmds] and the constructor *)

Definition genVideoCmd_state (video : pyval) : result pyval :=
  '(_, video') <- genVideoCmd video ;; Ok video'.

(** The loop runs over whatever [config['videos']] is.  The items of a list
    are the clip objects themselves and are updated in place; iterating over
    a [str] or the keys of a [dict] yields strings. *)
Definition buildVideoCmds (config : pyval) : result pyval :=
  videos <- getitem config "videos" ;;
  match config, videos with
  | PDict d, PList l =>
      l' <- mapM genVideoCmd_state l ;;
      Ok (PDict (dict_set d "videos" (PList l')))
  | _, _ =>
      items <- py_iter videos ;;
      _ <- mapM genVideoCmd_state items ;;
      Ok config
  end.

(** [FFMPEG(cfg)]: the instance holds the configuration object itself. *)
Definition FFMPEG_init (cfg : pyval) : result pyval := buildVideoCmds cfg.

(** ** [FFMPEG._genFinalCmd] *)

(** [FFMPEG.POST_DATE], given the text of the date: the environment's
    [POST_DATE], or today's date when it is not set. *)
Definition POST_DATE (date : string) : pyval :=
  PDict [("drawtext", PDict
    [("fontfile", PStr "/home/YouTube/resources/DejaVuSans.ttf");
     ("text", PStr date);
     ("fontcolor", PStr "black");
     ("fontsize", PStr "28");
     ("box", PStr "1");
     ("boxcolor", PStr "white@0.8");
     ("boxborderw", PStr "10");
     ("x", PStr "w-200");
     ("y", PStr "15")])].

Record final : Type := mkFinal {
  deps : string;
  input : string;
  vstreams : string;
  astreams : string
}.

Fixpoint finalLoop (videos : list pyval) (f : final) (i : nat) : result (final * nat) :=
  match videos with
  | [] => Ok (f, i)
  | video :: rest =>
      attrs <- getitem video "attributes" ;;
      skip <- py_in "not-a-build" attrs ;;
      if skip then finalLoop rest f i
      else
        vidName <- getitem video "output" ;;
        let f' := {| deps := deps f ++ " " ++ py_str vidName;
                     input := input f ++ " -i " ++ py_str vidName;
                     vstreams := vstreams f ++ "[" ++ str_of_nat i ++ ":v]";
                     astreams := astreams f ++ "[" ++ str_of_nat i ++ ":a]" |} in
        finalLoop rest f' (S i)
  end.

(** The template of the aggregate rule, filled in. *)
Definition finalText (f : final) (streamCount : nat) (date : string) : string :=
  "build/final.mp4:" ++ deps f ++ newline
  ++ tab ++ "ffmpeg -hide_banner" ++ input f
  ++ " -filter_complex " ++ dquote ++ vstreams f ++ "concat=n=" ++ str_of_nat streamCount
  ++ "," ++ date ++ "[video];" ++ astreams f ++ "concat=v=0:a=1:n="
  ++ str_of_nat streamCount ++ "[audio]" ++ dquote
  ++ " -map [video] -map [audio] -map_metadata -1 -c:v h264 -c:a aac -vsync 2 -y build/final.mp4"
  ++ newline ++ newline.

Definition genFinalCmd (date : string) (config : pyval) : result string :=
  videos <- getitem config "videos" ;;
  items <- py_iter videos ;;
  '(f, i) <- finalLoop items (mkFinal "" "" "" "") 0 ;;
  drawtext <- parseFunction (POST_DATE date) ;;
  Ok (finalText f i drawtext).

(** ** [FFMPEG.Makefile] *)

Definition makefile_header : string :=
  newline ++ "all: build/final.mp4" ++ newline ++ newline
  ++ "clean:" ++ newline ++ tab ++ "rm -fv build/*.mp4" ++ newline ++ newline.

(** One turn of the loop: the rule of a clip, and the clip with its
    [require] field set. *)
Definition clipRule (video : pyval) : result (string * pyval) :=
  match video with
  | PDict d =>
      let d := dict_set d "require" (dict_get_default d "require" (PStr "")) in
      output <- lookup d "output" ;;
      require <- lookup d "require" ;;
      ffmpeg <- lookup d "ffmpeg" ;;
      head <- str_add output
                (PStr (": " ++ py_str require ++ newline ++ tab ++ py_str ffmpeg)) ;;
      Ok (head ++ newline ++ newline, PDict d)
  | _ => Raise AttributeError
  end.

Fixpoint rulesLoop (videos : list pyval) (text : string) : result (string * list pyval) :=
  match videos with
  | [] => Ok (text, [])
  | video :: rest =>
      '(rule, video') <- clipRule video ;;
      '(text', rest') <- rulesLoop rest (text ++ rule) ;;
      Ok (text', video' :: rest')
  end.

Definition Makefile (date : string) (config : pyval) : result (string * pyval) :=
  videos <- getitem config "videos" ;;
  items <- py_iter videos ;;
  '(text, items') <- rulesLoop items makefile_header ;;
  let config' :=
    match config, videos with
    | PDict d, PList _ => PDict (dict_set d "videos" (PList items'))
    | _, _ => config
    end in
  final <- genFinalCmd date config' ;;
  Ok (text ++ final, config').

(** The whole pipeline of [main]: [FFMPEG(config).Makefile()].  The second
    component is the configuration object as the run leaves it. *)
Definition render (date : string) (config : pyval) : result (string * pyval) :=
  ff <- FFMPEG_init config ;;
  Makefile date ff.

(** * Vocabulary of the properties *)

(** ** Filter units *)

(** A mapping whose values are strings, as a Python dictionary. *)
Definition str_items (kvs : list (string * string)) : list (string * pyval) :=
  map (fun '(k, s) => (k, PStr s)) kvs.

(** One argument of a function, [key=value]. *)
Definition key_value (kv : string * string) : string := fst kv ++ "=" ++ snd kv.

(** The types the [isinstance] chain accepts; [bool] is a subclass of
    [int]. *)
Definition supported_type (v : pyval) : bool :=
  match v with
  | PNone => false
  | _ => true
  end.

(** Arguments made of strings only. *)
Definition all_strings (v : pyval) : Prop :=
  match v with
  | PStr _ => True
  | PList l => Forall (fun x => exists s, x = PStr s) l
  | PDict items => Forall (fun kv => exists s, snd kv = PStr s) items
  | _ => False
  end.

(** ** Filter-complex entries *)

(** The fragment of one entry: a raw string stands for itself, a structured
    entry gives its istream, its formatted function and its ostream, one
    after the other. *)
Inductive renders : pyval -> string -> Prop :=
| renders_raw : forall s, renders (PStr s) s
| renders_structured : forall d istream func ostream f,
    dict_get d "istream" = Some (PStr istream) ->
    dict_get d "func" = Some func ->
    parseFunction func = Ok f ->
    dict_get d "ostream" = Some (PStr ostream) ->
    renders (PDict d) (istream ++ f ++ ostream).

(** ** The state a clip is left in *)

(** An input entry after the loop: a structured entry has lost its ['i']
    key. *)
Definition strip_i (video : pyval) : pyval :=
  match video with
  | PDict d => PDict (dict_del d "i")
  | _ => video
  end.

Definition strip_inputs (input : pyval) : pyval :=
  match input with
  | PList videos => PList (map strip_i videos)
  | _ => input
  end.

Definition is_dict (v : pyval) : bool :=
  match v with
  | PDict _ => true
  | _ => false
  end.

(** An [input] field without structured mappings. *)
Definition plain_inputs (input : pyval) : bool :=
  match input with
  | PList videos => forallb (fun v => negb (is_dict v)) videos
  | _ => true
  end.

Definition plain_clip (clip : pyval) : bool :=
  match clip with
  | PDict d =>
      match dict_get d "input" with
      | Some input => plain_inputs input
      | None => true
      end
  | _ => true
  end.

(** A document in which no clip has a structured input. *)
Definition plain_config (config : pyval) : bool :=
  match config with
  | PDict d =>
      match dict_get d "videos" with
      | Some (PList clips) => forallb plain_clip clips
      | _ => true
      end
  | _ => true
  end.

(** Two clips that differ in their [ffmpeg] field at most. *)
Definition same_fields (d d' : list (string * pyval)) : Prop :=
  forall k, k <> "ffmpeg" -> dict_get d' k = dict_get d k.

Definition has_require (clip : pyval) : Prop :=
  exists d r, clip = PDict d /\ dict_get d "require" = Some r.

(** ** The aggregate command *)

Fixpoint cat (l : list string) : string :=
  match l with
  | [] => ""
  | a :: l' => a ++ cat l'
  end.

(** Whether the aggregate command skips the clip. *)
Definition not_a_build (video : pyval) : bool :=
  match getitem video "attributes" with
  | Ok attrs =>
      match py_in "not-a-build" attrs with
      | Ok skip => skip
      | Raise _ => false
      end
  | Raise _ => false
  end.

Definition included (videos : list pyval) : list pyval :=
  filter (fun video => negb (not_a_build video)) videos.

Definition output_text (video : pyval) : string :=
  match getitem video "output" with
  | Ok out => py_str out
  | Raise _ => ""
  end.

(** The stream labels [[i:kind]] for [i = start, ..., start + n - 1]. *)
Definition labels (kind : string) (start n : nat) : string :=
  cat (map (fun i => "[" ++ str_of_nat i ++ ":" ++ kind ++ "]") (seq start n)).

(** A clip the loop of [_genFinalCmd] can handle: its attributes can be
    searched and, unless it is skipped, it has an output. *)
Definition in_inventory (video : pyval) : Prop :=
  exists attrs skip,
    getitem video "attributes" = Ok attrs
    /\ py_in "not-a-build" attrs = Ok skip
    /\ (skip = false -> exists out, getitem video "output" = Ok out).

(** The text of the date overlay, [parseFunction(FFMPEG.POST_DATE)]. *)
Definition drawtext (date : string) : string :=
  "drawtext=fontfile=/home/YouTube/resources/DejaVuSans.ttf:text=" ++ date
  ++ ":fontcolor=black:fontsize=28:box=1:boxcolor=white@0.8:boxborderw=10:x=w-200:y=15".

(** ** The tokens of a command *)

Fixpoint no_space (s : string) : bool :=
  match s with
  | EmptyString => true
  | String c s' => negb (Ascii.eqb c " ") && no_space s'
  end.

(** The tokens made of an input entry's own data. *)
Definition entry_tokens (video : pyval) : list pyval :=
  match video with
  | PDict e =>
      (map (fun '(opt, val) => PStr ("-" ++ opt ++ " " ++ py_str val)) (dict_del e "i")
       ++ [PStr ("-i " ++ py_str (dict_get_default e "i" PNone))])%list
  | _ => [video]
  end.

(** The tokens of a command that carry the clip's own data: the input
    paths and input options, the video codec, the movflags and the output
    path. *)
Definition input_tokens (d : list (string * pyval)) : list pyval :=
  match dict_get d "input" with
  | Some (PList videos) => flat_map entry_tokens videos
  | Some v => [v]
  | None => []
  end.

Definition codec_tokens (d : list (string * pyval)) : list pyval :=
  match dict_get d "codec" with
  | Some (PDict codec) =>
      match dict_get codec "video" with
      | Some v => [v]
      | None => []
      end
  | _ => []
  end.

Definition movflags_tokens (d : list (string * pyval)) : list pyval :=
  match dict_get d "movflags" with
  | Some flags =>
      match str_join " " flags with
      | Ok movflags => [PStr ("-movflags " ++ movflags)]
      | Raise _ => []
      end
  | None => []
  end.

Definition output_tokens (d : list (string * pyval)) : list pyval :=
  match dict_get d "output" with
  | Some out => [out]
  | None => []
  end.

Definition clip_tokens (d : list (string * pyval)) : list pyval :=
  (input_tokens d ++ codec_tokens d ++ movflags_tokens d ++ output_tokens d)%list.

(** The constant tokens of a command without a filter chain and without
    audio. *)
Definition builder_tokens : list string :=
  ["ffmpeg"; "-hide_banner"; "-i"; "-vf"; default_scale; "-c:v"; "h264";
   "-map_metadata"; "-1"; "-vsync 2"; "-y"].

(** Membership in a list that is written out. *)
Ltac in_list := simpl; repeat (first [left; reflexivity | right]).

(** ** The lines of a build file *)

Definition is_newline (c : ascii) : bool := Ascii.eqb c (ascii_of_nat 10).

(** The lines of a text: the pieces between its newline characters. *)
Fixpoint lines (s : string) : list string :=
  match s with
  | EmptyString => [""]
  | String c s' =>
      if is_newline c then "" :: lines s'
      else
        match lines s' with
        | l :: ls => String c l :: ls
        | [] => [String c ""]
        end
  end.

Fixpoint no_newline (s : string) : bool :=
  match s with
  | EmptyString => true
  | String c s' => negb (is_newline c) && no_newline s'
  end.

(** The lines of a build file that open a rule: neither empty nor a recipe
    line, which starts with a tab. *)
Definition rule_lines (text : string) : list string :=
  filter (fun l => negb (String.eqb l "") && negb (prefix tab l)) (lines text).

Definition ends_with (suffix s : string) : bool :=
  let n := String.length s - String.length suffix in
  String.eqb (substring n (String.length suffix) s) suffix.

(** ** Example documents *)

(** A clip with a structured input, and its command. *)
Definition structured_clip : list (string * pyval) :=
  [("input", PList [PDict [("ss", PStr "3"); ("i", PStr "a.mp4")]]);
   ("output", PStr "build/a.mp4")].

Definition structured_clip_cmd : string :=
  "ffmpeg -hide_banner -ss 3 -i a.mp4 -vf scale=720x1280,setsar=1:1 "
  ++ "-c:a aac -c:v h264 -map_metadata -1 -y build/a.mp4".

(** A document with that clip, and a document without structured inputs. *)
Definition structured_config : pyval :=
  PDict [("videos", PList [PDict structured_clip])].

Definition plain_example : pyval :=
  PDict [("videos",
          PList [PDict [("input", PList [PStr "a.mp4"; PStr "b.mp4"]);
                        ("output", PStr "build/a.mp4");
                        ("attributes", PList [PStr "no-audio"])];
                 PDict [("input", PStr "c.mp4");
                        ("output", PStr "build/c.mp4");
                        ("filter_complex", PStr "[0:v]null[video];[0:a]anull[audio]")]])].

(** Three clips of a constructed instance, the first one kept out of the
    build. *)
Definition inventory_example : list pyval :=
  [PDict [("output", PStr "build/00_notes.mp4");
          ("attributes", PList [PStr "not-a-build"])];
   PDict [("output", PStr "build/01_intro.mp4");
          ("attributes", PList [])];
   PDict [("output", PStr "build/02_outro.mp4");
          ("attributes", PList [PStr "vsync"])]].

(** A clip without audio: two inputs, one of them structured. *)
Definition no_audio_example : list (string * pyval) :=
  [("input", PList [PDict [("ss", PStr "3"); ("i", PStr "a.mp4")]; PStr "b.mp4"]);
   ("output", PStr "build/a.mp4");
   ("attributes", PList [PStr "no-audio"; PStr "vsync"]);
   ("codec", PDict [("video", PStr "copy")]);
   ("movflags", PList [PStr "+faststart"])].

(** A clip without audio whose input names an audio codec. *)
Definition audio_option_clip : list (string * pyval) :=
  [("input", PList [PDict [("i", PStr "a.mp4"); ("c:a", PStr "copy")]]);
   ("output", PStr "build/a.mp4");
   ("attributes", PList [PStr "no-audio"])].

(** The configuration [{"videos": [{"input": "a.mp4", "output":
    "build/a.mp4"}]}], the recipe of its clip and its build file. *)
Definition single_clip_config : pyval :=
  PDict [("videos", PList [PDict [("input", PStr "a.mp4"); ("output", PStr "build/a.mp4")]])].

Definition single_clip_recipe : string :=
  "ffmpeg -hide_banner -i a.mp4 -vf scale=720x1280,setsar=1:1 -c:a aac -c:v h264 "
  ++ "-map_metadata -1 -y build/a.mp4".

Definition single_clip_final (date : string) : string :=
  finalText {| deps := " build/a.mp4"; input := " -i build/a.mp4";
               vstreams := "[0:v]"; astreams := "[0:a]" |} 1 (drawtext date).

Definition single_clip_text (date : string) : string :=
  makefile_header
  ++ "build/a.mp4: " ++ newline ++ tab ++ single_clip_recipe ++ newline ++ newline
  ++ single_clip_final date.

(** ** More about filter units and chains *)


(** Why an entry of a filter chain cannot be rendered, and the exception it
    raises. *)
Inductive entry_error : pyval -> exn -> Prop :=
| entry_not_mapping : forall fc,
    (forall s, fc <> PStr s) -> (forall d, fc <> PDict d) ->
    entry_error fc TypeError
| entry_no_istream : forall d,
    dict_get d "istream" = None ->
    entry_error (PDict d) (KeyError "istream")
| entry_no_func : forall d istream,
    dict_get d "istream" = Some istream ->
    dict_get d "func" = None ->
    entry_error (PDict d) (KeyError "func")
| entry_func_error : forall d istream func e,
    dict_get d "istream" = Some istream ->
    dict_get d "func" = Some func ->
    parseFunction func = Raise e ->
    entry_error (PDict d) e
| entry_istream_type : forall d istream func f,
    dict_get d "istream" = Some istream ->
    dict_get d "func" = Some func ->
    parseFunction func = Ok f ->
    (forall s, istream <> PStr s) ->
    entry_error (PDict d) TypeError
| entry_no_ostream : forall d istream func f,
    dict_get d "istream" = Some (PStr istream) ->
    dict_get d "func" = Some func ->
    parseFunction func = Ok f ->
    dict_get d "ostream" = None ->
    entry_error (PDict d) (KeyError "ostream")
| entry_ostream_type : forall d istream func f ostream,
    dict_get d "istream" = Some (PStr istream) ->
    dict_get d "func" = Some func ->
    parseFunction func = Ok f ->
    dict_get d "ostream" = Some ostream ->
    (forall s, ostream <> PStr s) ->
    entry_error (PDict d) TypeError.

(** ** The text of a command *)

(** The tokens of a command after the first one, each with the space that
    [' '.join] puts before it. *)
Definition words (toks : list string) : string :=
  cat (map (fun tok => " " ++ tok) toks).

(** The paths of an [input] field made of plain paths: one path, or a list
    of them. *)
Definition plain_paths (input : pyval) : result (list string) :=
  match input with
  | PList videos => mapM as_str videos
  | _ => path <- as_str input ;; Ok [path]
  end.

(** ** The rules of a build file *)

(** What [%s] prints for a field of a clip. *)
Definition field_text (clip : pyval) (key : string) : string :=
  match getitem clip key with
  | Ok v => py_str v
  | Raise _ => ""
  end.

(** The rule of a clip in the build file: target, prerequisites, recipe and
    an empty line. *)
Definition clip_rule (clip : pyval) : string :=
  field_text clip "output" ++ ": " ++ field_text clip "require" ++ newline
  ++ tab ++ field_text clip "ffmpeg" ++ newline ++ newline.

(** The clips the loops of an instance run over. *)
Definition clips_of (config : pyval) : list pyval :=
  match getitem config "videos" with
  | Ok videos =>
      match py_iter videos with
      | Ok clips => clips
      | Raise _ => []
      end
  | Raise _ => []
  end.

(** The aggregate rule of a list of clips. *)
Definition aggregate_rule (date : string) (clips : list pyval) : string :=
  finalText
    {| deps := cat (map (fun v => " " ++ output_text v) (included clips));
       input := cat (map (fun v => " -i " ++ output_text v) (included clips));
       vstreams := labels "v" 0 (length (included clips));
       astreams := labels "a" 0 (length (included clips)) |}
    (length (included clips))
    (drawtext date).

(** A clip as the constructor leaves it. *)
Definition rendered (clip : pyval) : Prop :=
  exists d cmd out req,
    clip = PDict d
    /\ dict_get d "ffmpeg" = Some (PStr cmd)
    /\ dict_get d "output" = Some (PStr out)
    /\ dict_get d "require" = Some req
    /\ in_inventory clip.

(** ** The command of a clip, part by part

    The tokens of a command as texts, for the clips whose tokens are all
    texts. *)

(** Whether the attributes of a clip hold a flag. *)
Definition flag (d : list (string * pyval)) (name : string) : result bool :=
  py_in name (dict_get_default d "attributes" (PList [])).

(** The tokens of one input entry: the options of a structured entry, then
    its path; [-i] and the path of a plain entry. *)
Definition entry_strs (video : pyval) : result (list string) :=
  match video with
  | PDict e =>
      inputVideo <- lookup e "i" ;;
      Ok (List.app
            (map (fun '(opt, val) => "-" ++ opt ++ " " ++ py_str val) (dict_del e "i"))
            ["-i " ++ py_str inputVideo])
  | _ => path <- as_str video ;; Ok ["-i"; path]
  end.

Definition input_strs (input : pyval) : result (list string) :=
  match input with
  | PList videos => l <- mapM entry_strs videos ;; Ok (List.concat l)
  | _ => path <- as_str input ;; Ok ["-i"; path]
  end.

(** The argument of [-filter_complex]: the string as given, the rendered
    chain in quotes, and nothing for a value of another type. *)
Definition chain_arg (fc : pyval) : result (list string) :=
  match fc with
  | PStr s => Ok [s]
  | PList l => s <- parseFilterComplex l ;; Ok [dquote ++ s ++ dquote]
  | _ => Ok []
  end.

Definition chain_strs (d : list (string * pyval)) : result (list string) :=
  match dict_get d "filter_complex" with
  | Some fc =>
      arg <- chain_arg fc ;;
      no_audio <- flag d "no-audio" ;;
      no_video <- flag d "no-video" ;;
      Ok (["-filter_complex"] ++ arg
          ++ (if no_audio then [] else ["-map"; "[audio]"])
          ++ (if no_video then [] else ["-map"; "[video]"]))%list
  | None => Ok ["-vf"; default_scale]
  end.

(** The codec a clip asks for, or the default one. *)
Definition codec_name (d : list (string * pyval)) (which default : string)
  : result string :=
  codec <- get_default (dict_get_default d "codec" (PDict [])) which (PStr default) ;;
  as_str codec.

Definition codec_strs (d : list (string * pyval)) : result (list string) :=
  no_audio <- flag d "no-audio" ;;
  audio <- (if no_audio then Ok []
            else codec <- codec_name d "audio" "aac" ;; Ok ["-c:a"; codec]) ;;
  no_video <- flag d "no-video" ;;
  video <- (if no_video then Ok []
            else codec <- codec_name d "video" "h264" ;; Ok ["-c:v"; codec]) ;;
  Ok (audio ++ video)%list.

Definition movflags_strs (d : list (string * pyval)) : result (list string) :=
  match dict_get d "movflags" with
  | Some flags => movflags <- str_join " " flags ;; Ok ["-movflags " ++ movflags]
  | None => Ok []
  end.

Definition tail_strs (d : list (string * pyval)) : result (list string) :=
  vsync <- flag d "vsync" ;;
  movflags <- movflags_strs d ;;
  output <- lookup d "output" ;;
  out <- as_str output ;;
  Ok (["-map_metadata"; "-1"] ++ (if vsync then ["-vsync 2"] else [])
      ++ movflags ++ ["-y"; out])%list.

Definition clip_strs (d : list (string * pyval)) : result (list string) :=
  input <- lookup d "input" ;;
  inputs <- input_strs input ;;
  chain <- chain_strs d ;;
  codecs <- codec_strs d ;;
  tail <- tail_strs d ;;
  Ok (["ffmpeg"; "-hide_banner"] ++ inputs ++ chain ++ codecs ++ tail)%list.

(** The clip as a successful call leaves it. *)
Definition clip_after (d : list (string * pyval)) (cmd : string) : pyval :=
  PDict (dict_set
           (dict_set (cmd_defaults d) "input"
              (strip_inputs (dict_get_default d "input" PNone)))
           "ffmpeg" (PStr cmd)).

(** Token lists in normal form. *)
Ltac norm_tokens :=
  repeat (progress (rewrite ?map_app, <- ?app_assoc, ?app_nil_r; cbn [map List.app negb])).

(** Tokens that [join] accepts. *)
Definition all_str (res : list pyval) : Prop :=
  Forall (fun v => exists s, v = PStr s) res.

(** The text of a command whose attributes are the list [attrs], given the
    texts of its inputs, of its filter and of its movflags, its codecs and
    its output. *)
Definition command_text (inputs chain : string) (attrs : list pyval)
    (audio video movflags out : string) : string :=
  "ffmpeg -hide_banner" ++ inputs ++ chain
  ++ (if existsb (is_str "no-audio") attrs then "" else " -c:a " ++ audio)
  ++ (if existsb (is_str "no-video") attrs then "" else " -c:v " ++ video)
  ++ " -map_metadata -1"
  ++ (if existsb (is_str "vsync") attrs then " -vsync 2" else "")
  ++ movflags ++ " -y " ++ out.



(** The [-i] flags of plain paths. *)
Definition input_flags (paths : list string) : string :=
  cat (map (fun path => " -i " ++ path) paths).

(** ** More example documents *)

(** A clip with two plain inputs and two flags. *)
Definition two_input_clip : list (string * pyval) :=
  [("input", PList [PStr "a.mp4"; PStr "b.mp4"]);
   ("output", PStr "build/ab.mp4");
   ("attributes", PList [PStr "no-audio"; PStr "vsync"])].

(** A clip whose input has two options, one of them a number, and its
    command. *)
Definition options_input : list (string * pyval) :=
  [("ss", PStr "3"); ("i", PStr "a.mp4"); ("t", PInt 5)].

Definition options_clip : list (string * pyval) :=
  [("input", PList [PDict options_input]); ("output", PStr "build/a.mp4")].

Definition options_clip_cmd : string :=
  "ffmpeg -hide_banner -ss 3 -t 5 -i a.mp4 -vf scale=720x1280,setsar=1:1 "
  ++ "-c:a aac -c:v h264 -map_metadata -1 -y build/a.mp4".




(** The instance the constructor makes of [single_clip_config]. *)
Definition single_clip_instance : pyval :=
  PDict [("videos",
          PList [PDict [("input", PStr "a.mp4");
                        ("output", PStr "build/a.mp4");
                        ("attributes", PList []);
                        ("require", PStr "");
                        ("ffmpeg", PStr single_clip_recipe)]])].

(** A document whose second clip has no input. *)
Definition broken_config : list (string * pyval) :=
  [("videos",
    PList ([PDict [("input", PStr "a.mp4"); ("output", PStr "build/a.mp4")]]
           ++ PDict [("output", PStr "build/b.mp4")]
           :: [PDict [("input", PStr "c.mp4"); ("output", PStr "build/c.mp4")]])%list)].

(** * Properties *)

(** ** The error monad *)

Lemma bind_Ok : forall {A B : Type} (m : result A) (k : A -> result B) (b : B),
  bind m k = Ok b <-> exists a, m = Ok a /\ k a = Ok b.
Proof.
  intros A B m k b; destruct m as [a|e]; simpl; split.
  - intros H; exists a; auto.
  - intros [a' [Ha Hk]]; inversion Ha; subst; assumption.
  - discriminate.
  - intros [a' [Ha _]]; discriminate.
Qed.

Lemma mapM_Ok_Forall2 : forall {A B : Type} (f : A -> result B) (l : list A) (l' : list B),
  mapM f l = Ok l' <-> Forall2 (fun a b => f a = Ok b) l l'.
Proof.
  intros A B f l; induction l as [|a l IH]; intros l'; simpl.
  - split; intros H.
    + inversion H; constructor.
    + inversion H; reflexivity.
  - split; intros H.
    + apply bind_Ok in H; destruct H as [b [Hb H]].
      apply bind_Ok in H; destruct H as [bs [Hbs H]].
      inversion H; subst; constructor; [assumption | apply IH; assumption].
    + inversion H as [|? b ? bs Hb Hbs]; subst.
      rewrite Hb; simpl.
      apply IH in Hbs; rewrite Hbs; reflexivity.
Qed.

Lemma mapM_as_str_strings : forall l : list string, mapM as_str (map PStr l) = Ok l.
Proof.
  induction l as [|s l IH]; simpl; [reflexivity|].
  rewrite IH; reflexivity.
Qed.

Lemma mapM_as_str_inv : forall (items : list pyval) (l : list string),
  mapM as_str items = Ok l -> items = map PStr l.
Proof.
  induction items as [|v items IH]; simpl; intros l H.
  - inversion H; reflexivity.
  - apply bind_Ok in H; destruct H as [s [Hs H]].
    apply bind_Ok in H; destruct H as [ss [Hss H]].
    inversion H; subst; simpl.
    destruct v; simpl in Hs; try discriminate.
    inversion Hs; subst; f_equal; apply IH; assumption.
Qed.

(** ** [join] *)

Lemma str_join_strings : forall (sep : string) (l : list string),
  str_join sep (PList (map PStr l)) = Ok (String.concat sep l).
Proof.
  intros sep l; unfold str_join; simpl.
  rewrite mapM_as_str_strings; reflexivity.
Qed.

Lemma str_join_str : forall sep s : string,
  str_join sep (PStr s) = Ok (String.concat sep (chars s)).
Proof.
  intros sep s; unfold str_join; simpl.
  rewrite mapM_as_str_strings; reflexivity.
Qed.

Lemma str_join_list_Ok : forall (sep : string) (l : list pyval) (s : string),
  str_join sep (PList l) = Ok s ->
  exists strs, l = map PStr strs /\ s = String.concat sep strs.
Proof.
  intros sep l s H; unfold str_join in H; simpl in H.
  apply bind_Ok in H; destruct H as [strs [Hstrs H]].
  inversion H; subst.
  exists strs; split; [apply mapM_as_str_inv; assumption | reflexivity].
Qed.

(** A list with an item that is not a [str] cannot be joined. *)
Lemma mapM_as_str_not_str : forall items : list pyval,
  Exists (fun v => forall s, v <> PStr s) items -> mapM as_str items = Raise TypeError.
Proof.
  induction items as [|v items IH]; intros H; inversion H; subst; simpl.
  - destruct v; try reflexivity.
    exfalso; eapply H1; reflexivity.
  - destruct v; try reflexivity; simpl.
    rewrite IH by assumption; reflexivity.
Qed.

(** ** [parseFunction] *)

Lemma pairs_of_str_items : forall kvs : list (string * string),
  mapM (fun '(k, a) => str_join "=" (PList [PStr k; a])) (str_items kvs)
  = Ok (map key_value kvs).
Proof.
  induction kvs as [|[k s] kvs IH]; [reflexivity|].
  change (str_items ((k, s) :: kvs)) with ((k, PStr s) :: str_items kvs).
  cbn [mapM]; rewrite IH; reflexivity.
Qed.

Lemma pairs_not_str : forall items : list (string * pyval),
  Exists (fun kv => forall s, snd kv <> PStr s) items ->
  mapM (fun '(k, a) => str_join "=" (PList [PStr k; a])) items = Raise TypeError.
Proof.
  induction items as [|[k v] items IH]; intros H; inversion H; subst; simpl in *.
  - destruct v; try reflexivity.
    exfalso; eapply H1; reflexivity.
  - destruct v; try reflexivity.
    unfold str_join at 1; simpl.
    rewrite IH by assumption; reflexivity.
Qed.

(** What the method returns for a list of strings: the joined arguments are
    joined once more, character by character. *)
Lemma parseFunction_list : forall (function : string) (l : list string),
  parseFunction (PDict [(function, PList (map PStr l))])
  = Ok (function ++ "=" ++ String.concat ":" (chars (String.concat ":" l))).
Proof.
  intros function l; unfold parseFunction.
  rewrite str_join_strings; simpl.
  rewrite str_join_str; reflexivity.
Qed.

Lemma parseFunction_str : forall function s : string,
  parseFunction (PDict [(function, PStr s)])
  = Ok (function ++ "=" ++ String.concat ":" (chars s)).
Proof.
  intros function s; unfold parseFunction; simpl.
  rewrite str_join_str; reflexivity.
Qed.

Lemma strings_of_Forall : forall l : list pyval,
  Forall (fun x => exists s, x = PStr s) l -> exists strs, l = map PStr strs.
Proof.
  induction l as [|v l IH]; intros H.
  - exists []; reflexivity.
  - inversion H as [|? ? [s Hs] Hl]; subst.
    destruct (IH Hl) as [strs Hstrs]; subst.
    exists (s :: strs); reflexivity.
Qed.

Lemma str_items_of_Forall : forall items : list (string * pyval),
  Forall (fun kv => exists s, snd kv = PStr s) items -> exists kvs, items = str_items kvs.
Proof.
  induction items as [|[k v] items IH]; intros H.
  - exists []; reflexivity.
  - inversion H as [|? ? [s Hs] Hl]; subst; simpl in Hs; subst.
    destruct (IH Hl) as [kvs Hkvs]; subst.
    exists ((k, s) :: kvs); reflexivity.
Qed.

Lemma parseFunction_mapping_strings : forall (function : string) (kvs : list (string * string)),
  parseFunction (PDict [(function, PDict (str_items kvs))])
  = Ok (function ++ "=" ++ String.concat ":" (map key_value kvs)).
Proof.
  intros function kvs; unfold parseFunction.
  rewrite pairs_of_str_items; simpl.
  rewrite str_join_strings; reflexivity.
Qed.

Lemma mapM_Raise : forall {A B : Type} (f : A -> result B) (l : list A) (e : exn),
  mapM f l = Raise e -> exists a, In a l /\ f a = Raise e.
Proof.
  intros A B f l e; induction l as [|a l IH]; simpl; intros H; [discriminate|].
  destruct (f a) as [b|e'] eqn:Hfa; simpl in H.
  - destruct (mapM f l) as [bs|e'']; simpl in H; [discriminate|].
    destruct (IH H) as [a' [Hin Ha']]; exists a'; auto.
  - inversion H; subst; exists a; auto.
Qed.

Lemma as_str_Raise : forall (v : pyval) (e : exn), as_str v = Raise e -> e = TypeError.
Proof. intros v e H; destruct v; simpl in H; congruence. Qed.

Lemma str_join_Raise : forall (sep : string) (v : pyval) (e : exn),
  str_join sep v = Raise e -> e = TypeError.
Proof.
  intros sep v e H; unfold str_join in H.
  destruct (py_iter v) as [items|e'] eqn:Hit; simpl in H.
  - destruct (mapM as_str items) as [strs|e''] eqn:Hm; simpl in H; [discriminate|].
    inversion H; subst.
    apply mapM_Raise in Hm; destruct Hm as [a [_ Ha]].
    eapply as_str_Raise; eassumption.
  - inversion H; subst; destruct v; simpl in Hit; congruence.
Qed.

(** The exceptions of a unit with one key. *)
Lemma parseFunction_single_Raise : forall (function : string) (v : pyval) (e : exn),
  parseFunction (PDict [(function, v)]) = Raise e ->
  e = TypeError
  \/ (v = PNone
      /\ e = ValueError ("Unknown type " ++ dquote ++ "<class 'NoneType'>" ++ dquote
                         ++ " from unit[" ++ function ++ "]!")).
Proof.
  intros function v e H; destruct v.
  - right; split; [reflexivity|]; cbv in H; inversion H; reflexivity.
  - left; cbv in H; congruence.
  - left; cbv in H; congruence.
  - left; cbv in H; congruence.
  - rewrite parseFunction_str in H; discriminate.
  - left; unfold parseFunction in H.
    destruct (str_join ":" (PList l)) as [s|e'] eqn:Hj; cbn [bind] in H.
    + rewrite str_join_str in H; discriminate.
    + apply str_join_Raise in Hj; congruence.
  - left; unfold parseFunction in H.
    destruct (mapM (fun '(k, a) => str_join "=" (PList [PStr k; a])) d)
      as [l|e'] eqn:Hm; cbn [bind] in H.
    + rewrite str_join_strings in H; discriminate.
    + apply mapM_Raise in Hm; destruct Hm as [[k a] [_ Ha]].
      apply str_join_Raise in Ha; congruence.
Qed.

(** C1: the example of the method's own documentation.  The list
    ['start=1.15', 'end=4.5'] is joined with ':' and the joined text is then
    joined with ':' again, one character at a time, so the method does not
    return "trim=start=1.15:end=4.5". *)
Theorem parseFunction_list_example :
  parseFunction (PDict [("trim", PList [PStr "start=1.15"; PStr "end=4.5"])])
  = Ok "trim=s:t:a:r:t:=:1:.:1:5:::e:n:d:=:4:.:5"
  /\ parseFunction (PDict [("trim", PList [PStr "start=1.15"; PStr "end=4.5"])])
     <> Ok ("trim" ++ "=" ++ String.concat ":" ["start=1.15"; "end=4.5"]).
Proof. split; [reflexivity | discriminate]. Qed.

(** C2: a scalar is not used as it is.  A string of more than one character
    comes back with ':' between its characters, and a number raises a
    TypeError in the last [join]. *)
Theorem parseFunction_scalar_example :
  parseFunction (PDict [("volume", PStr "0.5")]) = Ok "volume=0:.:5"
  /\ parseFunction (PDict [("volume", PStr "0.5")]) <> Ok ("volume" ++ "=" ++ "0.5")
  /\ parseFunction (PDict [("volume", PInt 2)]) = Raise TypeError
  /\ parseFunction (PDict [("volume", PFloat "0.5")]) = Raise TypeError.
Proof. repeat split; try reflexivity; discriminate. Qed.

(** C8, as stated, fails: a mapping with a value that is not a string makes
    ['='.join] raise a TypeError. *)
Lemma parseFunction_mapping_number :
  parseFunction (PDict [("trim", PDict [("start", PFloat "1.15"); ("end", PFloat "4.5")])])
  = Raise TypeError
  /\ forall s, parseFunction
                 (PDict [("trim", PDict [("start", PFloat "1.15"); ("end", PFloat "4.5")])])
               <> Ok s.
Proof. split; [reflexivity | discriminate]. Qed.

(** C8 (amended): for a filter unit whose single value is a mapping with
    string values, the method returns the function name, '=', and the
    [key=value] pairs joined with ':' in the order of the mapping; a mapping
    with a value that is not a string raises a TypeError. *)
Theorem parseFunction_mapping : forall function : string,
  (forall kvs : list (string * string),
     parseFunction (PDict [(function, PDict (str_items kvs))])
     = Ok (function ++ "=" ++ String.concat ":" (map key_value kvs)))
  /\ (forall items : list (string * pyval),
        Exists (fun kv => forall s, snd kv <> PStr s) items ->
        parseFunction (PDict [(function, PDict items)]) = Raise TypeError).
Proof.
  intros function; split.
  - apply parseFunction_mapping_strings.
  - intros items H; unfold parseFunction.
    rewrite pairs_not_str by assumption; reflexivity.
Qed.

Lemma parseFunction_mapping_witness :
  parseFunction (PDict [("scale", PDict [("w", PStr "720"); ("h", PInt 1280)])])
  = Raise TypeError.
Proof.
  apply (proj2 (parseFunction_mapping "scale")).
  apply Exists_cons_tl, Exists_cons_hd; simpl; discriminate.
Defined.

(** C6, as stated, fails: a unit with exactly one key and a value of a
    supported type (a mapping) that does not succeed. *)
Lemma parseFunction_supported_fails :
  supported_type (PDict [("volume", PInt 2)]) = true
  /\ parseFunction (PDict [("volume", PDict [("volume", PInt 2)])]) = Raise TypeError.
Proof. split; reflexivity. Qed.

(** C6 (amended): the method fails with an AssertionError exactly when the
    unit is not a mapping with exactly one key, and with a ValueError
    exactly when the value of that key is [None], the one unsupported type;
    the message of the ValueError names the type seen and the key.  A
    mapping or a list with an item that is not a string fails with a
    TypeError.  A unit whose value is a string, a list of strings or a
    mapping of strings succeeds. *)
Theorem parseFunction_errors : forall unit : pyval,
  ((exists msg, parseFunction unit = Raise (AssertionError msg))
   <-> (forall function v, unit <> PDict [(function, v)]))
  /\ (forall msg, parseFunction unit = Raise (ValueError msg) <->
        exists function,
          unit = PDict [(function, PNone)]
          /\ msg = "Unknown type " ++ dquote ++ "<class 'NoneType'>" ++ dquote
                   ++ " from unit[" ++ function ++ "]!")
  /\ (forall function v, unit = PDict [(function, v)] ->
        (all_strings v -> exists out, parseFunction unit = Ok out)
        /\ ((exists l, v = PList l /\ Exists (fun x => forall s, x <> PStr s) l)
            \/ (exists items, v = PDict items
                /\ Exists (fun kv => forall s, snd kv <> PStr s) items) ->
            parseFunction unit = Raise TypeError)).
Proof.
  intros unit; split; [|split].
  - split.
    + intros [msg H] function v ->.
      apply parseFunction_single_Raise in H.
      destruct H as [H | [_ H]]; discriminate.
    + intros H; destruct unit; try (eexists; reflexivity).
      destruct d as [|[function v] [|kv d]]; try (eexists; reflexivity).
      exfalso; eapply H; reflexivity.
  - intros msg; split.
    + intros H.
      destruct unit; try discriminate.
      destruct d as [|[function v] [|kv d]]; try discriminate.
      apply parseFunction_single_Raise in H.
      destruct H as [H | [-> H]]; [discriminate|].
      inversion H; subst; exists function; split; reflexivity.
    + intros [function [-> ->]]; reflexivity.
  - intros function v ->; split.
    + intros Hv; destruct v; simpl in Hv; try contradiction.
      * rewrite parseFunction_str; eexists; reflexivity.
      * destruct (strings_of_Forall _ Hv) as [strs ->].
        rewrite parseFunction_list; eexists; reflexivity.
      * destruct (str_items_of_Forall _ Hv) as [kvs ->].
        rewrite parseFunction_mapping_strings; eexists; reflexivity.
    + intros [[l [-> Hl]] | [items [-> Hitems]]]; unfold parseFunction.
      * unfold str_join at 1; simpl.
        rewrite mapM_as_str_not_str by assumption; reflexivity.
      * rewrite pairs_not_str by assumption; reflexivity.
Qed.

Lemma parseFunction_errors_witness :
  exists out, parseFunction (PDict [("fade", PList [PStr "in"; PStr "st=1"])]) = Ok out.
Proof.
  refine (proj1 (proj2 (proj2 (parseFunction_errors _)) "fade" _ eq_refl) _).
  simpl; repeat constructor; eexists; reflexivity.
Defined.

(** ** [parseFilterComplex] *)

Lemma getitem_Ok : forall (v : pyval) (k : string) (x : pyval),
  getitem v k = Ok x <-> exists d, v = PDict d /\ dict_get d k = Some x.
Proof.
  intros v k x; split.
  - intros H; destruct v; simpl in H; try discriminate.
    destruct (dict_get d k) eqn:Hk; [|discriminate].
    inversion H; subst; exists d; auto.
  - intros [d [-> Hk]]; simpl; rewrite Hk; reflexivity.
Qed.

Lemma str_add_Ok : forall (a b : pyval) (s : string),
  str_add a b = Ok s <-> exists x y, a = PStr x /\ b = PStr y /\ s = x ++ y.
Proof.
  intros a b s; split.
  - intros H; destruct a; simpl in H; try discriminate.
    destruct b; simpl in H; try discriminate.
    inversion H; subst; eauto.
  - intros [x [y [-> [-> ->]]]]; reflexivity.
Qed.

Lemma append_assoc : forall a b c : string, (a ++ b) ++ c = a ++ b ++ c.
Proof.
  induction a as [|ch a IH]; intros b c; simpl; [reflexivity|].
  rewrite IH; reflexivity.
Qed.

Lemma filterFragment_renders : forall (fc : pyval) (frag : string),
  filterFragment fc = Ok frag <-> renders fc frag.
Proof.
  intros fc frag; split.
  - intros H.
    assert (Hchain :
      (exists s, fc = PStr s /\ frag = s) \/
      (istream <- getitem fc "istream" ;;
       func <- getitem fc "func" ;;
       f <- parseFunction func ;;
       left <- str_add istream (PStr f) ;;
       ostream <- getitem fc "ostream" ;;
       str_add (PStr left) ostream) = Ok frag).
    { destruct fc; try (right; exact H).
      left; exists s; inversion H; auto. }
    clear H; destruct Hchain as [[s [-> ->]] | H]; [constructor|].
    apply bind_Ok in H; destruct H as [istream [Hi H]].
    apply bind_Ok in H; destruct H as [func [Hf H]].
    apply bind_Ok in H; destruct H as [f [Hpf H]].
    apply bind_Ok in H; destruct H as [left [Hleft H]].
    apply bind_Ok in H; destruct H as [ostream [Ho H]].
    apply getitem_Ok in Hi; destruct Hi as [d [-> Hi]].
    apply getitem_Ok in Hf; destruct Hf as [d' [Hd' Hf]]; inversion Hd'; subst d'.
    apply getitem_Ok in Ho; destruct Ho as [d' [Hd'' Ho]]; inversion Hd''; subst d'.
    apply str_add_Ok in Hleft; destruct Hleft as [x [y [-> [Hy ->]]]].
    inversion Hy; subst y.
    apply str_add_Ok in H; destruct H as [x' [o [Hx' [-> ->]]]].
    inversion Hx'; subst x'.
    rewrite append_assoc.
    econstructor; eassumption.
  - intros H; destruct H as [s | d istream func ostream f Hi Hf Hpf Ho]; [reflexivity|].
    unfold filterFragment, getitem.
    rewrite Hi, Hf; cbn [bind]; rewrite Hpf; cbn [bind str_add].
    rewrite Ho; cbn [bind str_add].
    rewrite append_assoc; reflexivity.
Qed.

Lemma filterLoop_spec : forall (fcs : list pyval) (acc out : list string),
  filterLoop fcs acc = Ok out <->
  exists frags, Forall2 renders fcs frags /\ out = (acc ++ frags)%list.
Proof.
  induction fcs as [|fc fcs IH]; intros acc out; simpl.
  - split.
    + intros H; inversion H; subst; exists []; split; [constructor|].
      rewrite app_nil_r; reflexivity.
    + intros [frags [HF ->]]; inversion HF; subst; rewrite app_nil_r; reflexivity.
  - split.
    + intros H; apply bind_Ok in H; destruct H as [frag [Hfrag H]].
      apply IH in H; destruct H as [frags [HF ->]].
      exists (frag :: frags); split.
      * constructor; [apply filterFragment_renders|]; assumption.
      * rewrite <- app_assoc; reflexivity.
    + intros [frags [HF ->]].
      inversion HF as [|? frag ? frags' Hfrag HF']; subst.
      apply filterFragment_renders in Hfrag; rewrite Hfrag; cbn [bind].
      apply IH; exists frags'; split; [assumption|].
      rewrite <- app_assoc; reflexivity.
Qed.

(** C7: [parseFilterComplex] returns a text exactly when every entry
    renders, a raw string as itself and a structured entry as its istream,
    its formatted function and its ostream; the text is then the fragments,
    in the order of the entries, with one ';' between every two neighbours
    ([String.concat]). *)
Theorem parseFilterComplex_spec : forall (filter_complexes : list pyval) (out : string),
  parseFilterComplex filter_complexes = Ok out <->
  exists frags, Forall2 renders filter_complexes frags /\ out = String.concat ";" frags.
Proof.
  intros fcs out; unfold parseFilterComplex; split.
  - intros H; apply bind_Ok in H; destruct H as [acc [Hacc H]].
    inversion H; subst.
    apply filterLoop_spec in Hacc; destruct Hacc as [frags [HF ->]].
    exists frags; auto.
  - intros [frags [HF ->]].
    assert (H : filterLoop fcs [] = Ok frags).
    { apply filterLoop_spec; exists frags; auto. }
    rewrite H; reflexivity.
Qed.

Lemma parseFilterComplex_spec_witness :
  parseFilterComplex
    [PStr "[0:a]anull[audio]";
     PDict [("istream", PStr "[0:v]");
            ("func", PDict [("trim", PDict [("start", PStr "1.5"); ("end", PStr "4.5")])]);
            ("ostream", PStr "[video]")];
     PStr "[1:a]anull[a1]"]
  = Ok "[0:a]anull[audio];[0:v]trim=start=1.5:end=4.5[video];[1:a]anull[a1]".
Proof.
  apply (proj2 (parseFilterComplex_spec _ _)).
  exists ["[0:a]anull[audio]"; "[0:v]trim=start=1.5:end=4.5[video]"; "[1:a]anull[a1]"].
  split; [|reflexivity].
  constructor; [constructor|].
  constructor; [|constructor; [constructor|constructor]].
  eapply (renders_structured _ "[0:v]" _ "[video]" "trim=start=1.5:end=4.5");
    reflexivity.
Defined.

(** ** Dictionaries *)

Lemma dict_get_set_same : forall d k v, dict_get (dict_set d k v) k = Some v.
Proof.
  induction d as [|[k' v'] d IH]; intros k v; simpl.
  - rewrite String.eqb_refl; reflexivity.
  - destruct (String.eqb k' k) eqn:E; simpl; rewrite E; [reflexivity | apply IH].
Qed.

Lemma dict_get_set_other : forall d k v k',
  String.eqb k k' = false -> dict_get (dict_set d k v) k' = dict_get d k'.
Proof.
  induction d as [|[k0 v0] d IH]; intros k v k' Hk; simpl.
  - rewrite Hk; reflexivity.
  - destruct (String.eqb k0 k) eqn:E; simpl.
    + apply String.eqb_eq in E; subst k0; rewrite Hk; reflexivity.
    + destruct (String.eqb k0 k'); [reflexivity | apply IH; assumption].
Qed.

(** Storing the value a key already has changes nothing. *)
Lemma dict_set_same_value : forall d k v, dict_get d k = Some v -> dict_set d k v = d.
Proof.
  induction d as [|[k' v'] d IH]; intros k v H; simpl in *; [discriminate|].
  destruct (String.eqb k' k) eqn:E.
  - inversion H; reflexivity.
  - rewrite IH by assumption; reflexivity.
Qed.

Lemma dict_set_default_present : forall d k default x,
  dict_get d k = Some x -> dict_set d k (dict_get_default d k default) = d.
Proof.
  intros d k default x H; apply dict_set_same_value.
  unfold dict_get_default; rewrite H; reflexivity.
Qed.

Lemma dict_get_del_same : forall d k, dict_get (dict_del d k) k = None.
Proof.
  induction d as [|[k' v'] d IH]; intros k; simpl; [reflexivity|].
  destruct (String.eqb k' k) eqn:E; simpl; [apply IH|].
  rewrite E; apply IH.
Qed.

Lemma dict_get_del_other : forall d k k',
  String.eqb k k' = false -> dict_get (dict_del d k) k' = dict_get d k'.
Proof.
  induction d as [|[k0 v0] d IH]; intros k k' Hk; simpl; [reflexivity|].
  destruct (String.eqb k0 k) eqn:E; simpl.
  - apply String.eqb_eq in E; subst k0; rewrite Hk; apply IH; assumption.
  - destruct (String.eqb k0 k'); [reflexivity | apply IH; assumption].
Qed.

(** ** [_genVideoCmd]: the state it leaves *)

Lemma inputEntry_state : forall video toks video',
  inputEntry video = Ok (toks, video') -> video' = strip_i video.
Proof.
  intros video toks video' H; destruct video; simpl in H; try (inversion H; reflexivity).
  unfold lookup, getitem in H.
  destruct (dict_get d "i"); simpl in H; inversion H; reflexivity.
Qed.

Lemma inputLoop_state : forall videos res res' videos',
  inputLoop videos res = Ok (res', videos') -> videos' = map strip_i videos.
Proof.
  induction videos as [|video videos IH]; intros res res' videos' H; simpl in H.
  - inversion H; reflexivity.
  - apply bind_Ok in H; destruct H as [[toks video'] [He H]].
    apply bind_Ok in H; destruct H as [[res'' rest'] [Hl H]].
    inversion H; subst; simpl.
    apply inputEntry_state in He; apply IH in Hl; subst; reflexivity.
Qed.

Lemma cmd_inputs_state : forall d res res' d',
  cmd_inputs d res = Ok (res', d') ->
  exists input, dict_get d "input" = Some input
                /\ d' = dict_set d "input" (strip_inputs input).
Proof.
  intros d res res' d' H; unfold cmd_inputs, lookup, getitem in H.
  destruct (dict_get d "input") as [input|] eqn:Hin; [|discriminate].
  exists input; split; [reflexivity|].
  cbn [bind] in H.
  destruct input;
    try (inversion H; subst; symmetry; apply dict_set_same_value; assumption).
  apply bind_Ok in H; destruct H as [[res'' videos'] [Hl H]].
  inversion H; subst.
  apply inputLoop_state in Hl; subst; reflexivity.
Qed.

(** A successful call, block by block. *)
Lemma genVideoCmd_Ok : forall config cmd config',
  genVideoCmd config = Ok (cmd, config') ->
  exists d res1 d2 res2 res3 res4,
    config = PDict d
    /\ cmd_inputs (cmd_defaults d) [PStr "ffmpeg"; PStr "-hide_banner"] = Ok (res1, d2)
    /\ cmd_filter d2 res1 = Ok res2
    /\ cmd_codecs d2 res2 = Ok res3
    /\ cmd_tail d2 res3 = Ok res4
    /\ str_join " " (PList res4) = Ok cmd
    /\ config' = PDict (dict_set d2 "ffmpeg" (PStr cmd)).
Proof.
  intros config cmd config' H; destruct config; try discriminate.
  unfold genVideoCmd in H.
  apply bind_Ok in H; destruct H as [[res1 d2] [H1 H]].
  apply bind_Ok in H; destruct H as [res2 [H2 H]].
  apply bind_Ok in H; destruct H as [res3 [H3 H]].
  apply bind_Ok in H; destruct H as [res4 [H4 H]].
  apply bind_Ok in H; destruct H as [ffmpeg [H5 H]].
  inversion H; subst.
  exists d, res1, d2, res2, res3, res4; repeat split; assumption.
Qed.

Lemma dict_get_cmd_defaults : forall d k,
  dict_get (cmd_defaults d) k =
  if String.eqb "require" k then Some (dict_get_default d "require" (PStr ""))
  else if String.eqb "attributes" k then Some (dict_get_default d "attributes" (PList []))
  else dict_get d k.
Proof.
  intros d k; unfold cmd_defaults.
  destruct (String.eqb "require" k) eqn:Er.
  - apply String.eqb_eq in Er; subst k.
    rewrite dict_get_set_same.
    unfold dict_get_default at 1.
    rewrite dict_get_set_other by reflexivity; reflexivity.
  - rewrite dict_get_set_other by assumption.
    destruct (String.eqb "attributes" k) eqn:Ea.
    + apply String.eqb_eq in Ea; subst k; apply dict_get_set_same.
    + apply dict_get_set_other; assumption.
Qed.

(** C3, as stated, fails: after the call the clip has an [attributes] and a
    [require] field it did not have, and the structured input has lost its
    ['i'] key, so the clip is not the given one with only [ffmpeg] added. *)
Lemma genVideoCmd_mutates_more :
  genVideoCmd (PDict structured_clip)
  = Ok (structured_clip_cmd,
        PDict [("input", PList [PDict [("ss", PStr "3")]]);
               ("output", PStr "build/a.mp4");
               ("attributes", PList []);
               ("require", PStr "");
               ("ffmpeg", PStr structured_clip_cmd)])
  /\ genVideoCmd (PDict structured_clip)
     <> Ok (structured_clip_cmd,
            PDict (dict_set structured_clip "ffmpeg" (PStr structured_clip_cmd))).
Proof. split; [reflexivity | discriminate]. Qed.

(** C3 (amended): a successful call returns the command and stores it under
    [ffmpeg]; besides that it sets [attributes] to the empty list and
    [require] to the empty string where the clip has none, and removes the
    ['i'] key from every structured mapping of the [input] list.  Every
    other field of the clip is left as given. *)
Theorem genVideoCmd_frame : forall config cmd config',
  genVideoCmd config = Ok (cmd, config') ->
  exists d d',
    config = PDict d /\ config' = PDict d'
    /\ dict_get d' "ffmpeg" = Some (PStr cmd)
    /\ dict_get d' "attributes" = Some (dict_get_default d "attributes" (PList []))
    /\ dict_get d' "require" = Some (dict_get_default d "require" (PStr ""))
    /\ dict_get d' "input" = option_map strip_inputs (dict_get d "input")
    /\ forall k, k <> "ffmpeg" -> k <> "attributes" -> k <> "require" -> k <> "input" ->
                 dict_get d' k = dict_get d k.
Proof.
  intros config cmd config' H.
  apply genVideoCmd_Ok in H.
  destruct H as [d [res1 [d2 [res2 [res3 [res4 [-> [H1 [_ [_ [_ [_ ->]]]]]]]]]]]].
  apply cmd_inputs_state in H1; destruct H1 as [input [Hin ->]].
  rewrite dict_get_cmd_defaults in Hin; simpl in Hin.
  exists d, (dict_set (dict_set (cmd_defaults d) "input" (strip_inputs input))
                      "ffmpeg" (PStr cmd)).
  split; [reflexivity|]; split; [reflexivity|].
  split; [apply dict_get_set_same|].
  split; [|split; [|split]].
  - rewrite !dict_get_set_other by reflexivity.
    rewrite dict_get_cmd_defaults; reflexivity.
  - rewrite !dict_get_set_other by reflexivity.
    rewrite dict_get_cmd_defaults; reflexivity.
  - rewrite dict_get_set_other by reflexivity.
    rewrite dict_get_set_same, Hin; reflexivity.
  - intros k Hf Ha Hr Hi.
    rewrite !dict_get_set_other by (apply String.eqb_neq; congruence).
    rewrite dict_get_cmd_defaults.
    replace (String.eqb "require" k) with false
      by (symmetry; apply String.eqb_neq; congruence).
    replace (String.eqb "attributes" k) with false
      by (symmetry; apply String.eqb_neq; congruence).
    reflexivity.
Qed.

Lemma genVideoCmd_frame_witness :
  exists d d',
    PDict [("input", PList [PDict [("ss", PStr "3"); ("i", PStr "a.mp4")]; PStr "b.mp4"]);
           ("output", PStr "build/a.mp4");
           ("codec", PDict [("video", PStr "copy")])] = PDict d
    /\ PDict [("input", PList [PDict [("ss", PStr "3")]; PStr "b.mp4"]);
              ("output", PStr "build/a.mp4");
              ("codec", PDict [("video", PStr "copy")]);
              ("attributes", PList []);
              ("require", PStr "");
              ("ffmpeg", PStr ("ffmpeg -hide_banner -ss 3 -i a.mp4 -i b.mp4 "
                               ++ "-vf scale=720x1280,setsar=1:1 -c:a aac -c:v copy "
                               ++ "-map_metadata -1 -y build/a.mp4"))] = PDict d'
    /\ dict_get d' "ffmpeg"
       = Some (PStr ("ffmpeg -hide_banner -ss 3 -i a.mp4 -i b.mp4 "
                     ++ "-vf scale=720x1280,setsar=1:1 -c:a aac -c:v copy "
                     ++ "-map_metadata -1 -y build/a.mp4"))
    /\ dict_get d' "attributes" = Some (dict_get_default d "attributes" (PList []))
    /\ dict_get d' "require" = Some (dict_get_default d "require" (PStr ""))
    /\ dict_get d' "input" = option_map strip_inputs (dict_get d "input")
    /\ forall k, k <> "ffmpeg" -> k <> "attributes" -> k <> "require" -> k <> "input" ->
                 dict_get d' k = dict_get d k.
Proof.
  apply (genVideoCmd_frame _ _ _); reflexivity.
Defined.

(** ** Running the pipeline again on the same object *)

Lemma strip_inputs_plain : forall input,
  plain_inputs input = true -> strip_inputs input = input.
Proof.
  intros input H; destruct input; try reflexivity; simpl in *.
  f_equal; induction l as [|v l IH]; simpl in *; [reflexivity|].
  apply andb_true_iff in H; destruct H as [Hv Hl].
  rewrite IH by assumption.
  destruct v; try reflexivity; discriminate.
Qed.

Lemma cmd_filter_ext : forall d d' res,
  same_fields d d' -> cmd_filter d' res = cmd_filter d res.
Proof.
  intros d d' res H; unfold cmd_filter, dict_get_default.
  rewrite (H "filter_complex"), (H "attributes") by discriminate; reflexivity.
Qed.

Lemma cmd_codecs_ext : forall d d' res,
  same_fields d d' -> cmd_codecs d' res = cmd_codecs d res.
Proof.
  intros d d' res H; unfold cmd_codecs, dict_get_default.
  rewrite (H "codec"), (H "attributes") by discriminate; reflexivity.
Qed.

Lemma cmd_tail_ext : forall d d' res,
  same_fields d d' -> cmd_tail d' res = cmd_tail d res.
Proof.
  intros d d' res H; unfold cmd_tail, lookup, getitem.
  rewrite (H "attributes"), (H "movflags"), (H "output") by discriminate; reflexivity.
Qed.

Lemma cmd_inputs_plain : forall d res res' d2,
  cmd_inputs d res = Ok (res', d2) ->
  plain_clip (PDict d) = true ->
  d2 = d
  /\ forall d', same_fields d d' -> cmd_inputs d' res = Ok (res', d').
Proof.
  intros d res res' d2 H Hplain.
  pose proof (cmd_inputs_state _ _ _ _ H) as [input [Hin Hd2]].
  simpl in Hplain; rewrite Hin in Hplain.
  rewrite strip_inputs_plain in Hd2 by assumption.
  rewrite dict_set_same_value in Hd2 by assumption.
  split; [assumption|].
  intros d' Hsame.
  assert (Hin' : dict_get d' "input" = Some input)
    by (rewrite (Hsame "input") by discriminate; assumption).
  unfold cmd_inputs, lookup, getitem in *.
  rewrite Hin in H; rewrite Hin'; cbn [bind] in *.
  destruct input; try (inversion H; subst; reflexivity).
  apply bind_Ok in H; destruct H as [[res'' videos'] [Hl H]].
  inversion H; subst.
  rewrite Hl; cbn [bind].
  pose proof (inputLoop_state _ _ _ _ Hl) as Hv.
  change (map strip_i l) with
    (match strip_inputs (PList l) with PList x => x | _ => [] end) in Hv.
  rewrite strip_inputs_plain in Hv by assumption; subst videos'.
  rewrite dict_set_same_value by assumption; reflexivity.
Qed.

Lemma cmd_defaults_present : forall d a r,
  dict_get d "attributes" = Some a -> dict_get d "require" = Some r ->
  cmd_defaults d = d.
Proof.
  intros d a r Ha Hr; unfold cmd_defaults.
  rewrite (dict_set_default_present d "attributes" _ a) by assumption.
  apply dict_set_default_present with (x := r); assumption.
Qed.

(** A clip without structured inputs: the call can be repeated on the clip
    it has left, with the same command and no further change. *)
Lemma genVideoCmd_again : forall config cmd config',
  genVideoCmd config = Ok (cmd, config') ->
  plain_clip config = true ->
  genVideoCmd config' = Ok (cmd, config').
Proof.
  intros config cmd config' H Hplain.
  apply genVideoCmd_Ok in H.
  destruct H as [d [res1 [d2 [res2 [res3 [res4 [-> [H1 [H2 [H3 [H4 [H5 ->]]]]]]]]]]]].
  assert (Hplain1 : plain_clip (PDict (cmd_defaults d)) = true).
  { simpl in *; rewrite dict_get_cmd_defaults; exact Hplain. }
  destruct (cmd_inputs_plain _ _ _ _ H1 Hplain1) as [-> Hagain].
  set (d1 := cmd_defaults d) in *.
  set (d' := dict_set d1 "ffmpeg" (PStr cmd)).
  assert (Hsame : same_fields d1 d').
  { intros k Hk; unfold d'; apply dict_get_set_other.
    apply String.eqb_neq; congruence. }
  assert (Hdef : cmd_defaults d' = d').
  { apply cmd_defaults_present with
      (a := dict_get_default d "attributes" (PList []))
      (r := dict_get_default d "require" (PStr ""));
      rewrite Hsame by discriminate; unfold d1;
      rewrite dict_get_cmd_defaults; reflexivity. }
  unfold genVideoCmd; cbv zeta.
  rewrite Hdef, (Hagain d' Hsame); cbn [bind].
  rewrite (cmd_filter_ext d1 d') by assumption; rewrite H2; cbn [bind].
  rewrite (cmd_codecs_ext d1 d') by assumption; rewrite H3; cbn [bind].
  rewrite (cmd_tail_ext d1 d') by assumption; rewrite H4; cbn [bind].
  rewrite H5; cbn [bind].
  rewrite (dict_set_same_value d' "ffmpeg") by apply dict_get_set_same.
  reflexivity.
Qed.

Lemma genVideoCmd_state_again : forall clips clips',
  mapM genVideoCmd_state clips = Ok clips' ->
  forallb plain_clip clips = true ->
  mapM genVideoCmd_state clips' = Ok clips'.
Proof.
  induction clips as [|clip clips IH]; intros clips' H Hplain; simpl in H.
  - inversion H; reflexivity.
  - apply bind_Ok in H; destruct H as [clip' [Hc H]].
    apply bind_Ok in H; destruct H as [rest' [Hr H]].
    inversion H; subst.
    simpl in Hplain; apply andb_true_iff in Hplain; destruct Hplain as [Hp Hps].
    unfold genVideoCmd_state in Hc.
    apply bind_Ok in Hc; destruct Hc as [[cmd c] [Hg Hc]].
    inversion Hc; subst.
    simpl; unfold genVideoCmd_state at 1.
    rewrite (genVideoCmd_again _ _ _ Hg Hp); cbn [bind].
    rewrite (IH _ Hr Hps); reflexivity.
Qed.

(** The loop of [Makefile] leaves the clips of a constructed instance as
    they are: their [require] field is set already. *)
Lemma clipRule_state : forall d rule video',
  clipRule (PDict d) = Ok (rule, video') ->
  (exists r, dict_get d "require" = Some r) ->
  video' = PDict d.
Proof.
  intros d rule video' H [r Hr]; unfold clipRule in H.
  rewrite (dict_set_default_present d "require" _ r) in H by assumption.
  apply bind_Ok in H; destruct H as [o [_ H]].
  apply bind_Ok in H; destruct H as [rq [_ H]].
  apply bind_Ok in H; destruct H as [f [_ H]].
  apply bind_Ok in H; destruct H as [hd [_ H]].
  inversion H; reflexivity.
Qed.

Lemma rulesLoop_state : forall clips text text' clips',
  rulesLoop clips text = Ok (text', clips') ->
  Forall has_require clips ->
  clips' = clips.
Proof.
  induction clips as [|clip clips IH]; intros text text' clips' H Hall; simpl in H.
  - inversion H; reflexivity.
  - apply bind_Ok in H; destruct H as [[rule clip'] [Hc H]].
    apply bind_Ok in H; destruct H as [[text'' rest'] [Hr H]].
    inversion H; subst.
    inversion Hall as [|? ? [d [r [-> Hreq]]] Hrest]; subst.
    apply clipRule_state in Hc; [|exists r; assumption].
    apply IH in Hr; [|assumption].
    subst; reflexivity.
Qed.

Lemma genVideoCmd_require : forall config cmd config',
  genVideoCmd config = Ok (cmd, config') -> has_require config'.
Proof.
  intros config cmd config' H.
  apply genVideoCmd_Ok in H.
  destruct H as [d [res1 [d2 [res2 [res3 [res4 [-> [H1 [_ [_ [_ [_ ->]]]]]]]]]]]].
  apply cmd_inputs_state in H1; destruct H1 as [input [_ ->]].
  eexists; eexists; split; [reflexivity|].
  rewrite !dict_get_set_other by reflexivity.
  rewrite dict_get_cmd_defaults; reflexivity.
Qed.

Lemma genVideoCmd_has_require : forall clips clips',
  mapM genVideoCmd_state clips = Ok clips' -> Forall has_require clips'.
Proof.
  induction clips as [|clip clips IH]; intros clips' H; simpl in H.
  - inversion H; constructor.
  - apply bind_Ok in H; destruct H as [clip' [Hc H]].
    apply bind_Ok in H; destruct H as [rest' [Hr H]].
    inversion H; subst.
    constructor; [|apply IH; assumption].
    unfold genVideoCmd_state in Hc.
    apply bind_Ok in Hc; destruct Hc as [[cmd c] [Hg Hc]].
    inversion Hc; subst.
    eapply genVideoCmd_require; eassumption.
Qed.

(** While [videos] is not a list, the constructor only succeeds when there
    is nothing to iterate over. *)
Lemma genVideoCmd_state_strings : forall (items : list pyval) out,
  (forall v, In v items -> exists s, v = PStr s) ->
  mapM genVideoCmd_state items = Ok out -> items = [].
Proof.
  intros items out Hstr H; destruct items as [|v items]; [reflexivity|].
  destruct (Hstr v (or_introl eq_refl)) as [s ->].
  simpl in H; discriminate.
Qed.

Lemma py_iter_not_list : forall videos items,
  py_iter videos = Ok items ->
  (forall l, videos <> PList l) ->
  forall v, In v items -> exists s, v = PStr s.
Proof.
  intros videos items H Hnl v Hin; destruct videos; simpl in H; try discriminate.
  - inversion H; subst; apply in_map_iff in Hin.
    destruct Hin as [s' [<- _]]; eexists; reflexivity.
  - exfalso; eapply Hnl; reflexivity.
  - inversion H; subst; apply in_map_iff in Hin.
    destruct Hin as [kv [<- _]]; eexists; reflexivity.
Qed.

(** The two ways the constructor succeeds. *)
Lemma buildVideoCmds_Ok : forall config ff,
  buildVideoCmds config = Ok ff ->
  (exists d clips clips',
     config = PDict d /\ dict_get d "videos" = Some (PList clips)
     /\ mapM genVideoCmd_state clips = Ok clips'
     /\ ff = PDict (dict_set d "videos" (PList clips')))
  \/ (ff = config
      /\ exists videos, getitem config "videos" = Ok videos
                        /\ (forall l, videos <> PList l)
                        /\ py_iter videos = Ok []).
Proof.
  intros config ff H; unfold buildVideoCmds in H.
  apply bind_Ok in H; destruct H as [videos [Hv H]].
  pose proof Hv as Hv'.
  apply getitem_Ok in Hv; destruct Hv as [d [-> Hd]].
  destruct videos as [| | | | |l|];
    try (right;
         apply bind_Ok in H; destruct H as [items [Hit H]];
         apply bind_Ok in H; destruct H as [out [Hm H]];
         inversion H; subst; split; [reflexivity|];
         eexists; split; [exact Hv'|]; split; [discriminate|];
         rewrite Hit; f_equal;
         eapply genVideoCmd_state_strings; [|exact Hm];
         eapply py_iter_not_list; [exact Hit | discriminate]).
  left.
  apply bind_Ok in H; destruct H as [clips' [Hm H]].
  inversion H; subst.
  exists d, l, clips'; auto.
Qed.

(** C4, as stated, fails: with a structured input the first run deletes the
    ['i'] key of the mapping, and the second run on the same document
    raises a KeyError where it reads that key. *)
Lemma render_twice_fails :
  exists text config',
    render "2021-10-12" structured_config = Ok (text, config')
    /\ render "2021-10-12" config' = Raise (KeyError "i").
Proof. do 2 eexists; split; reflexivity. Qed.

(** A second run on a document without structured inputs. *)
Lemma render_again_plain : forall date config text config',
  render date config = Ok (text, config') ->
  plain_config config = true ->
  render date config' = Ok (text, config').
Proof.
  intros date config text config' H Hplain.
  unfold render, FFMPEG_init in H.
  apply bind_Ok in H; destruct H as [ff [Hb HM]].
  destruct (buildVideoCmds_Ok _ _ Hb)
    as [[d [clips [clips' [-> [Hd [Hm ->]]]]]] | [-> [videos [Hv [Hnl Hit]]]]].
  - (* [videos] is a list of clips *)
    simpl in Hplain; rewrite Hd in Hplain.
    set (d1 := dict_set d "videos" (PList clips')) in *.
    assert (Hd1 : dict_get d1 "videos" = Some (PList clips'))
      by apply dict_get_set_same.
    assert (Hstate : config' = PDict d1).
    { unfold Makefile, getitem in HM; rewrite Hd1 in HM; cbn [bind py_iter] in HM.
      apply bind_Ok in HM; destruct HM as [[text0 items'] [Hr HM]].
      apply bind_Ok in HM; destruct HM as [fin [_ HM]].
      inversion HM; subst.
      apply rulesLoop_state in Hr; [|eapply genVideoCmd_has_require; eassumption].
      subst; unfold d1; rewrite dict_set_same_value by assumption; reflexivity. }
    subst config'.
    assert (Hb' : buildVideoCmds (PDict d1) = Ok (PDict d1)).
    { unfold buildVideoCmds, getitem; rewrite Hd1; cbn [bind].
      rewrite (genVideoCmd_state_again _ _ Hm Hplain); cbn [bind].
      rewrite dict_set_same_value by assumption; reflexivity. }
    unfold render, FFMPEG_init; rewrite Hb'; exact HM.
  - (* [videos] is not a list: there are no clips *)
    assert (Hstate : config' = config).
    { unfold Makefile in HM; rewrite Hv in HM; cbn [bind] in HM.
      rewrite Hit in HM; cbn [bind rulesLoop] in HM.
      apply bind_Ok in HM; destruct HM as [fin [_ HM]].
      inversion HM; subst.
      destruct config; try reflexivity.
      destruct videos; try reflexivity.
      exfalso; eapply Hnl; reflexivity. }
    subst config'.
    unfold render, FFMPEG_init; rewrite Hb; exact HM.
Qed.

(** A structured input that has lost its ['i'] key stops the loop over the
    inputs. *)
Lemma inputLoop_stripped : forall videos res,
  forallb (fun v => negb (is_dict v)) videos = false ->
  inputLoop (map strip_i videos) res = Raise (KeyError "i").
Proof.
  induction videos as [|video videos IH]; intros res H; simpl in H; [discriminate|].
  destruct video; simpl in H;
    try (cbn [map strip_i inputLoop inputEntry bind]; rewrite IH by assumption;
         reflexivity).
  cbn [map strip_i inputLoop inputEntry]; unfold lookup, getitem.
  rewrite dict_get_del_same; reflexivity.
Qed.

Lemma genVideoCmd_again_structured : forall config cmd config',
  genVideoCmd config = Ok (cmd, config') ->
  plain_clip config = false ->
  genVideoCmd config' = Raise (KeyError "i").
Proof.
  intros config cmd config' H Hplain.
  apply genVideoCmd_Ok in H.
  destruct H as [d [res1 [d2 [res2 [res3 [res4 [-> [H1 [_ [_ [_ [_ ->]]]]]]]]]]]].
  apply cmd_inputs_state in H1; destruct H1 as [input [Hin ->]].
  rewrite dict_get_cmd_defaults in Hin; simpl in Hin.
  simpl in Hplain; rewrite Hin in Hplain.
  destruct input; try discriminate; simpl in Hplain.
  unfold genVideoCmd, cmd_inputs, lookup, getitem; cbv zeta.
  rewrite dict_get_cmd_defaults; cbn [String.eqb Ascii.eqb Bool.eqb].
  rewrite dict_get_set_other by reflexivity.
  rewrite dict_get_set_same; cbn [bind strip_inputs].
  rewrite inputLoop_stripped by assumption; reflexivity.
Qed.

Lemma genVideoCmd_state_again_structured : forall clips clips',
  mapM genVideoCmd_state clips = Ok clips' ->
  forallb plain_clip clips = false ->
  mapM genVideoCmd_state clips' = Raise (KeyError "i").
Proof.
  induction clips as [|clip clips IH]; intros clips' H Hplain; simpl in H.
  - discriminate.
  - apply bind_Ok in H; destruct H as [clip' [Hc H]].
    apply bind_Ok in H; destruct H as [rest' [Hr H]].
    inversion H; subst.
    unfold genVideoCmd_state in Hc.
    apply bind_Ok in Hc; destruct Hc as [[cmd c] [Hg Hc]].
    inversion Hc; subst.
    simpl in Hplain; simpl; unfold genVideoCmd_state at 1.
    destruct (plain_clip clip) eqn:Hp; simpl in Hplain.
    + rewrite (genVideoCmd_again _ _ _ Hg Hp); cbn [bind].
      rewrite (IH _ Hr Hplain); reflexivity.
    + rewrite (genVideoCmd_again_structured _ _ _ Hg Hp); reflexivity.
Qed.

(** A second run on a document with a structured input. *)
Lemma render_again_structured : forall date config text config',
  render date config = Ok (text, config') ->
  plain_config config = false ->
  render date config' = Raise (KeyError "i").
Proof.
  intros date config text config' H Hplain.
  unfold render, FFMPEG_init in H.
  apply bind_Ok in H; destruct H as [ff [Hb HM]].
  destruct (buildVideoCmds_Ok _ _ Hb)
    as [[d [clips [clips' [-> [Hd [Hm ->]]]]]] | [-> [videos [Hv [Hnl Hit]]]]].
  - simpl in Hplain; rewrite Hd in Hplain.
    set (d1 := dict_set d "videos" (PList clips')) in *.
    assert (Hd1 : dict_get d1 "videos" = Some (PList clips'))
      by apply dict_get_set_same.
    assert (Hstate : config' = PDict d1).
    { unfold Makefile, getitem in HM; rewrite Hd1 in HM; cbn [bind py_iter] in HM.
      apply bind_Ok in HM; destruct HM as [[text0 items'] [Hr HM]].
      apply bind_Ok in HM; destruct HM as [fin [_ HM]].
      inversion HM; subst.
      apply rulesLoop_state in Hr; [|eapply genVideoCmd_has_require; eassumption].
      subst; unfold d1; rewrite dict_set_same_value by assumption; reflexivity. }
    subst config'.
    unfold render, FFMPEG_init, buildVideoCmds, getitem; rewrite Hd1; cbn [bind].
    rewrite (genVideoCmd_state_again_structured _ _ Hm Hplain); reflexivity.
  - apply getitem_Ok in Hv; destruct Hv as [d [-> Hd]].
    simpl in Hplain; rewrite Hd in Hplain.
    destruct videos; try discriminate.
    exfalso; eapply Hnl; reflexivity.
Qed.

(** C4 (amended): take a configuration document that renders.  If no
    clip's [input] list holds a structured mapping, running the pipeline a
    second time on the same document succeeds, gives the same text and
    leaves the document as the first run left it.  If some [input] list holds
    a structured mapping, the second run raises a KeyError: the first run
    has deleted the ['i'] key of the mapping. *)
Theorem render_twice : forall date config text config',
  render date config = Ok (text, config') ->
  (plain_config config = true -> render date config' = Ok (text, config'))
  /\ (plain_config config = false -> render date config' = Raise (KeyError "i")).
Proof.
  intros date config text config' H; split; intros Hplain.
  - eapply render_again_plain; eassumption.
  - eapply render_again_structured; eassumption.
Qed.

Lemma render_twice_witness :
  exists text config',
    render "2021-10-12" plain_example = Ok (text, config')
    /\ render "2021-10-12" config' = Ok (text, config').
Proof.
  destruct (render "2021-10-12" plain_example) as [[text config']|e] eqn:H;
    [|vm_compute in H; discriminate].
  exists text, config'; split; [reflexivity|].
  apply (proj1 (render_twice "2021-10-12" plain_example text config' H)); reflexivity.
Defined.

(** ** [_genFinalCmd] *)

Lemma append_nil_r : forall s : string, s ++ "" = s.
Proof. induction s as [|c s IH]; simpl; [reflexivity | rewrite IH; reflexivity]. Qed.

Lemma parseFunction_POST_DATE : forall date,
  parseFunction (POST_DATE date) = Ok (drawtext date).
Proof.
  intros date.
  change (POST_DATE date) with
    (PDict [("drawtext", PDict (str_items
       [("fontfile", "/home/YouTube/resources/DejaVuSans.ttf"); ("text", date);
        ("fontcolor", "black"); ("fontsize", "28"); ("box", "1");
        ("boxcolor", "white@0.8"); ("boxborderw", "10"); ("x", "w-200"); ("y", "15")]))]).
  rewrite parseFunction_mapping_strings.
  reflexivity.
Qed.

Lemma finalLoop_spec : forall clips f i,
  Forall in_inventory clips ->
  finalLoop clips f i =
  Ok ({| deps := deps f ++ cat (map (fun v => " " ++ output_text v) (included clips));
         input := input f ++ cat (map (fun v => " -i " ++ output_text v) (included clips));
         vstreams := vstreams f ++ labels "v" i (length (included clips));
         astreams := astreams f ++ labels "a" i (length (included clips)) |},
      i + length (included clips)).
Proof.
  induction clips as [|video clips IH]; intros f i Hall.
  - simpl; unfold labels; simpl; rewrite !append_nil_r, Nat.add_0_r.
    destruct f; reflexivity.
  - inversion Hall as [|? ? [attrs [skip [Ha [Hs Ho]]]] Hrest]; subst.
    cbn [finalLoop]; rewrite Ha; cbn [bind]; rewrite Hs; cbn [bind].
    unfold included; cbn [filter]; fold (included clips).
    unfold not_a_build; rewrite Ha, Hs.
    destruct skip; cbn [negb].
    + apply IH; assumption.
    + destruct (Ho eq_refl) as [out Hout].
      rewrite Hout; cbn [bind].
      assert (Hot : output_text video = py_str out)
        by (unfold output_text; rewrite Hout; reflexivity).
      rewrite IH by assumption; cbn [deps input vstreams astreams map length].
      rewrite Hot; unfold labels; cbn [seq map cat].
      rewrite !append_assoc, Nat.add_succ_r; reflexivity.
Qed.

(** C5: the aggregate command is built from the clips that are not marked
    [not-a-build] only.  The dependency list and the [-i] flags are those of
    the included clips, in order, and the stream labels are [[0:v]],
    [[1:v]], ... (and [[0:a]], [[1:a]], ...), one per included clip: the
    index counts the included clips, whatever the position of a clip in the
    list; the stream count is the number of included clips. *)
Theorem genFinalCmd_included : forall date config videos clips,
  getitem config "videos" = Ok videos ->
  py_iter videos = Ok clips ->
  Forall in_inventory clips ->
  genFinalCmd date config =
  Ok (finalText
        {| deps := cat (map (fun v => " " ++ output_text v) (included clips));
           input := cat (map (fun v => " -i " ++ output_text v) (included clips));
           vstreams := labels "v" 0 (length (included clips));
           astreams := labels "a" 0 (length (included clips)) |}
        (length (included clips))
        (drawtext date)).
Proof.
  intros date config videos clips Hv Hit Hall.
  unfold genFinalCmd; rewrite Hv; cbn [bind]; rewrite Hit; cbn [bind].
  rewrite finalLoop_spec by assumption; cbn [bind deps input vstreams astreams].
  rewrite parseFunction_POST_DATE; reflexivity.
Qed.

Lemma py_in_Ok_any : forall s s' v b, py_in s v = Ok b -> exists b', py_in s' v = Ok b'.
Proof.
  intros s s' v b H; destruct v; simpl in *; try discriminate; eexists; reflexivity.
Qed.

Lemma cmd_tail_Ok : forall d res res',
  cmd_tail d res = Ok res' ->
  exists attrs vsync out,
    dict_get d "attributes" = Some attrs
    /\ py_in "vsync" attrs = Ok vsync
    /\ dict_get d "output" = Some out
    /\ In out res'.
Proof.
  intros d res res' H; unfold cmd_tail, lookup in H.
  apply bind_Ok in H; destruct H as [attrs [Ha H]].
  apply bind_Ok in H; destruct H as [vsync [Hv H]].
  apply bind_Ok in H; destruct H as [res0 [_ H]].
  apply bind_Ok in H; destruct H as [out [Ho H]].
  inversion H; subst.
  apply getitem_Ok in Ha; destruct Ha as [d' [Hd' Ha]]; inversion Hd'; subst d'.
  apply getitem_Ok in Ho; destruct Ho as [d' [Hd'' Ho]]; inversion Hd''; subst d'.
  exists attrs, vsync, out; repeat split; try assumption.
  apply in_or_app; right; right; left; reflexivity.
Qed.

(** The clips of a constructed instance are clips [_genFinalCmd] can
    handle. *)
Lemma genVideoCmd_in_inventory : forall config cmd config',
  genVideoCmd config = Ok (cmd, config') -> in_inventory config'.
Proof.
  intros config cmd config' H.
  apply genVideoCmd_Ok in H.
  destruct H as [d [res1 [d2 [res2 [res3 [res4 [-> [_ [_ [_ [H4 [_ ->]]]]]]]]]]]].
  apply cmd_tail_Ok in H4.
  destruct H4 as [attrs [vsync [out [Ha [Hv [Ho _]]]]]].
  destruct (py_in_Ok_any _ "not-a-build" _ _ Hv) as [skip Hskip].
  exists attrs, skip; split; [|split; [assumption|]].
  - simpl; rewrite dict_get_set_other by reflexivity; rewrite Ha; reflexivity.
  - intros _; exists out; simpl.
    rewrite dict_get_set_other by reflexivity; rewrite Ho; reflexivity.
Qed.

Lemma genVideoCmd_state_inventory : forall clips clips',
  mapM genVideoCmd_state clips = Ok clips' -> Forall in_inventory clips'.
Proof.
  induction clips as [|clip clips IH]; intros clips' H; simpl in H.
  - inversion H; constructor.
  - apply bind_Ok in H; destruct H as [clip' [Hc H]].
    apply bind_Ok in H; destruct H as [rest' [Hr H]].
    inversion H; subst.
    constructor; [|apply IH; assumption].
    unfold genVideoCmd_state in Hc.
    apply bind_Ok in Hc; destruct Hc as [[cmd c] [Hg Hc]].
    inversion Hc; subst.
    eapply genVideoCmd_in_inventory; eassumption.
Qed.

Lemma FFMPEG_init_inventory : forall config ff,
  FFMPEG_init config = Ok ff ->
  exists videos clips,
    getitem ff "videos" = Ok videos /\ py_iter videos = Ok clips
    /\ Forall in_inventory clips.
Proof.
  intros config ff H; unfold FFMPEG_init in H.
  destruct (buildVideoCmds_Ok _ _ H)
    as [[d [clips [clips' [-> [Hd [Hm ->]]]]]] | [-> [videos [Hv [Hnl Hit]]]]].
  - exists (PList clips'), clips'; split; [|split; [reflexivity|]].
    + simpl; rewrite dict_get_set_same; reflexivity.
    + eapply genVideoCmd_state_inventory; eassumption.
  - exists videos, []; auto.
Qed.

Lemma genFinalCmd_included_witness :
  genFinalCmd "2021-10-12" (PDict [("videos", PList inventory_example)])
  = Ok (finalText
          {| deps := " build/01_intro.mp4 build/02_outro.mp4";
             input := " -i build/01_intro.mp4 -i build/02_outro.mp4";
             vstreams := "[0:v][1:v]";
             astreams := "[0:a][1:a]" |}
          2 (drawtext "2021-10-12")).
Proof.
  refine (genFinalCmd_included "2021-10-12" (PDict [("videos", PList inventory_example)])
            (PList inventory_example) inventory_example eq_refl eq_refl _).
  constructor; [|constructor; [|constructor; [|constructor]]].
  - exists (PList [PStr "not-a-build"]), true; repeat split; discriminate.
  - exists (PList []), false; repeat split; intros _; eexists; reflexivity.
  - exists (PList [PStr "vsync"]), false; repeat split; intros _; eexists; reflexivity.
Defined.

(** ** Texts inside a command *)

Lemma prefix_no_space_app : forall needle a b,
  no_space needle = true ->
  prefix needle (a ++ String " " b) = true -> prefix needle a = true.
Proof.
  induction needle as [|c needle IH]; intros a b Hn H; [destruct a; reflexivity|].
  simpl in Hn; apply andb_true_iff in Hn; destruct Hn as [Hc Hn].
  destruct a as [|x a]; simpl in *.
  - destruct (ascii_dec c " ") as [->|Hne]; [discriminate|discriminate].
  - destruct (ascii_dec c x); [|discriminate].
    eapply IH; eassumption.
Qed.

Lemma substring_in_no_space_app : forall needle a b,
  no_space needle = true ->
  substring_in needle (a ++ String " " b) = true ->
  substring_in needle a = true \/ substring_in needle b = true.
Proof.
  intros needle a b Hn; induction a as [|x a IH]; intros H.
  - change ("" ++ String " " b) with (String " " b) in H.
    cbn [substring_in] in H; apply orb_true_iff in H; destruct H as [H | H].
    + left; destruct needle as [|c needle]; [reflexivity|].
      simpl in Hn; apply andb_true_iff in Hn; destruct Hn as [Hc _].
      simpl in H; destruct (ascii_dec c " ") as [->|]; discriminate.
    + right; assumption.
  - change (String x a ++ String " " b) with (String x (a ++ String " " b)) in H.
    cbn [substring_in] in H; apply orb_true_iff in H; destruct H as [H | H].
    + left; cbn [substring_in]; apply orb_true_iff; left.
      apply (prefix_no_space_app needle (String x a) b Hn H).
    + destruct (IH H) as [Ha | Hb]; [left | right; assumption].
      cbn [substring_in]; apply orb_true_iff; right; assumption.
Qed.

(** A text without spaces that occurs in a command occurs in one of its
    tokens. *)
Lemma substring_in_join : forall needle toks,
  no_space needle = true ->
  substring_in needle (String.concat " " toks) = true ->
  needle = "" \/ exists tok, In tok toks /\ substring_in needle tok = true.
Proof.
  intros needle toks Hn; induction toks as [|tok toks IH]; intros H.
  - left; destruct needle; [reflexivity | discriminate].
  - right; destruct toks as [|tok' toks].
    + exists tok; split; [left; reflexivity | exact H].
    + change (String.concat " " (tok :: tok' :: toks))
        with (tok ++ String " " (String.concat " " (tok' :: toks))) in H.
      apply substring_in_no_space_app in H; [|assumption].
      destruct H as [H | H].
      * exists tok; split; [left; reflexivity | assumption].
      * destruct (IH H) as [-> | [t [Hin Ht]]].
        -- exists tok; split; [left; reflexivity | destruct tok; reflexivity].
        -- exists t; split; [right; assumption | assumption].
Qed.

Lemma prefix_app : forall needle hay, prefix needle hay = true -> exists q, hay = needle ++ q.
Proof.
  induction needle as [|c needle IH]; intros hay H.
  - exists hay; reflexivity.
  - destruct hay as [|x hay]; simpl in H; [discriminate|].
    destruct (ascii_dec c x) as [->|]; [|discriminate].
    destruct (IH _ H) as [q ->]; exists q; reflexivity.
Qed.

Lemma prefix_of_app : forall needle q, prefix needle (needle ++ q) = true.
Proof.
  induction needle as [|c needle IH]; intros q; simpl; [destruct q; reflexivity|].
  destruct (ascii_dec c c); [apply IH | congruence].
Qed.

Lemma substring_in_iff : forall needle hay,
  substring_in needle hay = true <-> exists p q, hay = p ++ needle ++ q.
Proof.
  intros needle hay; split.
  - induction hay as [|x hay IH]; cbn [substring_in]; intros H;
      apply orb_true_iff in H; destruct H as [H | H].
    + apply prefix_app in H; destruct H as [q ->]; exists "", q; reflexivity.
    + discriminate.
    + apply prefix_app in H; destruct H as [q ->]; exists "", q; reflexivity.
    + destruct (IH H) as [p [q ->]]; exists (String x p), q; reflexivity.
  - intros [p [q ->]]; induction p as [|x p IH].
    + change ("" ++ needle ++ q) with (needle ++ q).
      destruct (needle ++ q) eqn:E; cbn [substring_in]; apply orb_true_iff; left;
        rewrite <- E; apply prefix_of_app.
    + change (String x p ++ needle ++ q) with (String x (p ++ needle ++ q)).
      cbn [substring_in]; apply orb_true_iff; right; assumption.
Qed.

(** A text that occurs in another one carries its parts along. *)
Lemma substring_in_right_part : forall a b hay,
  substring_in (a ++ b) hay = true -> substring_in b hay = true.
Proof.
  intros a b hay H; apply substring_in_iff in H; destruct H as [p [q ->]].
  apply substring_in_iff; exists (p ++ a), q.
  rewrite !append_assoc; reflexivity.
Qed.

(** ** [_genVideoCmd]: the tokens of a command *)

Lemma inputEntry_tokens : forall video toks video',
  inputEntry video = Ok (toks, video') ->
  forall v, In v toks -> v = PStr "-i" \/ In v (entry_tokens video).
Proof.
  intros video toks video' H v Hin.
  destruct video;
    try (inversion H; subst; destruct Hin as [<- | [<- | []]];
         [left; reflexivity | right; left; reflexivity]).
  right; unfold inputEntry, lookup, getitem in H.
  destruct (dict_get d "i") as [iv|] eqn:Hi; [|discriminate].
  cbn [bind] in H; inversion H; subst.
  unfold entry_tokens, dict_get_default; rewrite Hi; assumption.
Qed.

Lemma inputLoop_tokens : forall videos res res' videos',
  inputLoop videos res = Ok (res', videos') ->
  forall v, In v res' ->
    In v res \/ v = PStr "-i" \/ In v (flat_map entry_tokens videos).
Proof.
  induction videos as [|video videos IH]; intros res res' videos' H v Hin; simpl in H.
  - inversion H; subst; left; assumption.
  - apply bind_Ok in H; destruct H as [[toks video'] [He H]].
    apply bind_Ok in H; destruct H as [[res'' rest'] [Hl H]].
    inversion H; subst.
    destruct (IH _ _ _ Hl v Hin) as [Hres | [Hi | Hrest]].
    + apply in_app_or in Hres; destruct Hres as [Hres | Htok]; [left; assumption|].
      destruct (inputEntry_tokens _ _ _ He v Htok) as [Hi | Hent];
        [right; left; assumption|].
      right; right; cbn [flat_map]; apply in_or_app; left; assumption.
    + right; left; assumption.
    + right; right; cbn [flat_map]; apply in_or_app; right; assumption.
Qed.

Lemma cmd_inputs_tokens : forall d res res' d2,
  cmd_inputs d res = Ok (res', d2) ->
  forall v, In v res' -> In v res \/ v = PStr "-i" \/ In v (input_tokens d).
Proof.
  intros d res res' d2 H v Hin; unfold cmd_inputs, lookup, getitem in H.
  unfold input_tokens.
  destruct (dict_get d "input") as [input|]; [|discriminate].
  cbn [bind] in H.
  destruct input;
    try (inversion H; subst; apply in_app_or in Hin;
         destruct Hin as [Hin | [<- | [<- | []]]];
         [left; assumption | right; left; reflexivity | right; right; left; reflexivity]).
  apply bind_Ok in H; destruct H as [[res'' videos'] [Hl H]].
  inversion H; subst.
  eapply inputLoop_tokens; eassumption.
Qed.

Lemma cmd_filter_none : forall d res,
  dict_get d "filter_complex" = None ->
  cmd_filter d res = Ok (res ++ [PStr "-vf"; PStr default_scale])%list.
Proof. intros d res H; unfold cmd_filter; rewrite H; reflexivity. Qed.

Lemma cmd_codecs_tokens : forall d res res',
  cmd_codecs d res = Ok res' ->
  py_in "no-audio" (dict_get_default d "attributes" (PList [])) = Ok true ->
  forall v, In v res' ->
    In v res \/ v = PStr "-c:v" \/ v = PStr "h264" \/ In v (codec_tokens d).
Proof.
  intros d res res' H Hna v Hin; unfold cmd_codecs in H.
  rewrite Hna in H; cbn [bind negb] in H.
  apply bind_Ok in H; destruct H as [no_video [_ H]].
  destruct no_video; cbn [negb] in H; [inversion H; subst; left; assumption|].
  apply bind_Ok in H; destruct H as [codec [Hc H]].
  inversion H; subst.
  apply in_app_or in Hin; destruct Hin as [Hin | [<- | [<- | []]]];
    [left; assumption | right; left; reflexivity|].
  right; right; unfold codec_tokens, dict_get_default, get_default in *.
  destruct (dict_get d "codec") as [c|]; [|inversion Hc; left; reflexivity].
  destruct c; try discriminate.
  destruct (dict_get d0 "video"); inversion Hc; subst;
    [right; left; reflexivity | left; reflexivity].
Qed.

Lemma cmd_tail_tokens : forall d res res',
  cmd_tail d res = Ok res' ->
  forall v, In v res' ->
    In v res
    \/ In v [PStr "-map_metadata"; PStr "-1"; PStr "-vsync 2"; PStr "-y"]
    \/ In v (movflags_tokens d) \/ In v (output_tokens d).
Proof.
  intros d res res' H v Hin; unfold cmd_tail, lookup, getitem in H.
  apply bind_Ok in H; destruct H as [attrs [_ H]].
  apply bind_Ok in H; destruct H as [vsync [_ H]].
  apply bind_Ok in H; destruct H as [res0 [Hm H]].
  apply bind_Ok in H; destruct H as [out [Ho H]].
  inversion H; subst; clear H.
  apply in_app_or in Hin; destruct Hin as [Hin | [<- | [<- | []]]].
  - assert (Hres0 : In v (res ++ [PStr "-map_metadata"; PStr "-1"])%list
                    \/ v = PStr "-vsync 2" \/ In v (movflags_tokens d)).
    { unfold movflags_tokens.
      destruct (dict_get d "movflags") as [flags|].
      - apply bind_Ok in Hm; destruct Hm as [movflags [Hj Hm]].
        inversion Hm; subst; rewrite Hj.
        apply in_app_or in Hin; destruct Hin as [Hin | [<- | []]];
          [|right; right; left; reflexivity].
        destruct vsync; [|left; assumption].
        apply in_app_or in Hin; destruct Hin as [Hin | [<- | []]];
          [left; assumption | right; left; reflexivity].
      - inversion Hm; subst.
        destruct vsync; [|left; assumption].
        apply in_app_or in Hin; destruct Hin as [Hin | [<- | []]];
          [left; assumption | right; left; reflexivity]. }
    destruct Hres0 as [Hres | [-> | Hmov]].
    + apply in_app_or in Hres; destruct Hres as [Hres | [<- | [<- | []]]];
        [left; assumption | right; left; simpl; auto | right; left; simpl; auto].
    + right; left; simpl; auto.
    + right; right; left; assumption.
  - right; left; simpl; auto.
  - right; right; right; unfold output_tokens.
    destruct (dict_get d "output"); inversion Ho; left; reflexivity.
Qed.

(** The fields the later blocks read are those of the given clip. *)
Lemma cmd_inputs_fields : forall d res res' d2,
  cmd_inputs (cmd_defaults d) res = Ok (res', d2) ->
  dict_get d2 "attributes" = Some (dict_get_default d "attributes" (PList []))
  /\ dict_get (cmd_defaults d) "input" = dict_get d "input"
  /\ forall k, k <> "input" -> k <> "attributes" -> k <> "require" ->
               dict_get d2 k = dict_get d k.
Proof.
  intros d res res' d2 H.
  apply cmd_inputs_state in H; destruct H as [input [Hin ->]].
  split; [|split].
  - rewrite dict_get_set_other by reflexivity.
    rewrite dict_get_cmd_defaults; reflexivity.
  - rewrite dict_get_cmd_defaults; reflexivity.
  - intros k Hi Ha Hr.
    rewrite dict_get_set_other by (apply String.eqb_neq; congruence).
    rewrite dict_get_cmd_defaults.
    replace (String.eqb "require" k) with false
      by (symmetry; apply String.eqb_neq; congruence).
    replace (String.eqb "attributes" k) with false
      by (symmetry; apply String.eqb_neq; congruence).
    reflexivity.
Qed.

(** The tokens of the command of a clip without a filter chain and with
    [no-audio]: constants of the builder and tokens of the clip's own
    data. *)
Lemma genVideoCmd_no_audio_tokens : forall d cmd config',
  genVideoCmd (PDict d) = Ok (cmd, config') ->
  dict_get d "filter_complex" = None ->
  py_in "no-audio" (dict_get_default d "attributes" (PList [])) = Ok true ->
  exists toks,
    cmd = String.concat " " toks
    /\ forall tok, In tok toks -> In tok builder_tokens \/ In (PStr tok) (clip_tokens d).
Proof.
  intros d cmd config' H Hfc Hna.
  apply genVideoCmd_Ok in H.
  destruct H as [d0 [res1 [d2 [res2 [res3 [res4 [Hd [H1 [H2 [H3 [H4 [H5 _]]]]]]]]]]]].
  inversion Hd; subst d0; clear Hd.
  destruct (cmd_inputs_fields _ _ _ _ H1) as [Hattrs [Hinput Hsame]].
  rewrite cmd_filter_none in H2
    by (rewrite Hsame by discriminate; assumption).
  inversion H2; subst res2; clear H2.
  assert (Hna2 : py_in "no-audio" (dict_get_default d2 "attributes" (PList [])) = Ok true).
  { unfold dict_get_default at 1; rewrite Hattrs; assumption. }
  apply str_join_list_Ok in H5; destruct H5 as [toks [-> ->]].
  exists toks; split; [reflexivity|].
  intros tok Hin.
  apply (in_map PStr) in Hin.
  assert (Hcodec : codec_tokens d2 = codec_tokens d)
    by (unfold codec_tokens; rewrite Hsame by discriminate; reflexivity).
  assert (Hmov : movflags_tokens d2 = movflags_tokens d)
    by (unfold movflags_tokens; rewrite Hsame by discriminate; reflexivity).
  assert (Hout : output_tokens d2 = output_tokens d)
    by (unfold output_tokens; rewrite Hsame by discriminate; reflexivity).
  assert (Hinp : input_tokens (cmd_defaults d) = input_tokens d)
    by (unfold input_tokens; rewrite Hinput; reflexivity).
  unfold clip_tokens, builder_tokens.
  destruct (cmd_tail_tokens _ _ _ H4 _ Hin) as [Hin3 | [Hc | [Hm | Ho]]].
  - destruct (cmd_codecs_tokens _ _ _ H3 Hna2 _ Hin3) as [Hin2 | [Hc | [Hc | Hc]]].
    + apply in_app_or in Hin2; destruct Hin2 as [Hin1 | Hc].
      * destruct (cmd_inputs_tokens _ _ _ _ H1 _ Hin1) as [Hc | [Hc | Hc]].
        -- left; simpl in Hc; destruct Hc as [Hc | [Hc | []]]; inversion Hc; subst; in_list.
        -- left; inversion Hc; subst; in_list.
        -- right; rewrite Hinp in Hc; apply in_or_app; left; assumption.
      * left; simpl in Hc; destruct Hc as [Hc | [Hc | []]]; inversion Hc; subst; in_list.
    + left; inversion Hc; subst; in_list.
    + left; inversion Hc; subst; in_list.
    + right; rewrite Hcodec in Hc.
      apply in_or_app; right; apply in_or_app; left; assumption.
  - left; simpl in Hc; destruct Hc as [Hc | [Hc | [Hc | [Hc | []]]]];
      inversion Hc; subst; in_list.
  - right; rewrite Hmov in Hm.
    apply in_or_app; right; apply in_or_app; right; apply in_or_app; left; assumption.
  - right; rewrite Hout in Ho.
    apply in_or_app; right; apply in_or_app; right; apply in_or_app; right; assumption.
Qed.

(** C9, as stated, fails: the options of a structured input are emitted as
    flags whatever the attributes say, so a clip with [no-audio] and no
    filter chain can have a [-c:a] flag in its command. *)
Lemma genVideoCmd_no_audio_input_option :
  dict_get audio_option_clip "filter_complex" = None
  /\ py_in "no-audio" (dict_get_default audio_option_clip "attributes" (PList [])) = Ok true
  /\ exists cmd config',
       genVideoCmd (PDict audio_option_clip) = Ok (cmd, config')
       /\ cmd = "ffmpeg -hide_banner -c:a copy -i a.mp4 -vf scale=720x1280,setsar=1:1 "
                ++ "-c:v h264 -map_metadata -1 -y build/a.mp4"
       /\ substring_in "-c:a" cmd = true.
Proof. repeat split; do 2 eexists; repeat split. Qed.

(** C9 (amended): for every clip whose attributes contain [no-audio] and
    which has no filter chain, the builder emits no [-c:a] flag and no
    [-map [audio]] token of its own: unless a token made of the clip's own
    data (an input path or input option, the video codec, the movflags, the
    output path) contains [-c:a] or [[audio]], the rendered command contains
    neither. *)
Theorem genVideoCmd_no_audio : forall d cmd config',
  genVideoCmd (PDict d) = Ok (cmd, config') ->
  dict_get d "filter_complex" = None ->
  py_in "no-audio" (dict_get_default d "attributes" (PList [])) = Ok true ->
  (forall tok, In (PStr tok) (clip_tokens d) ->
     substring_in "-c:a" tok = false /\ substring_in "[audio]" tok = false) ->
  substring_in "-c:a" cmd = false
  /\ substring_in "[audio]" cmd = false
  /\ substring_in "-map [audio]" cmd = false.
Proof.
  intros d cmd config' H Hfc Hna Hclip.
  destruct (genVideoCmd_no_audio_tokens _ _ _ H Hfc Hna) as [toks [-> Htoks]].
  assert (Hneedle : forall needle,
            no_space needle = true ->
            (forall tok, In tok builder_tokens -> substring_in needle tok = false) ->
            (forall tok, In (PStr tok) (clip_tokens d) -> substring_in needle tok = false) ->
            substring_in needle (String.concat " " toks) = false).
  { intros needle Hns Hb Hc.
    destruct (substring_in needle (String.concat " " toks)) eqn:E; [|reflexivity].
    apply substring_in_join in E; [|assumption].
    destruct E as [-> | [tok [Hin Hsub]]];
      [specialize (Hb "ffmpeg" (or_introl eq_refl)); discriminate|].
    destruct (Htoks tok Hin) as [Hbt | Hct].
    - rewrite (Hb tok Hbt) in Hsub; discriminate.
    - rewrite (Hc tok Hct) in Hsub; discriminate. }
  assert (Hca : substring_in "-c:a" (String.concat " " toks) = false).
  { apply Hneedle; [reflexivity| |intros tok Hin; apply Hclip; assumption].
    intros tok Hin; simpl in Hin.
    repeat (destruct Hin as [<- | Hin]; [reflexivity|]); contradiction. }
  assert (Haudio : substring_in "[audio]" (String.concat " " toks) = false).
  { apply Hneedle; [reflexivity| |intros tok Hin; apply Hclip; assumption].
    intros tok Hin; simpl in Hin.
    repeat (destruct Hin as [<- | Hin]; [reflexivity|]); contradiction. }
  split; [assumption|]; split; [assumption|].
  destruct (substring_in "-map [audio]" (String.concat " " toks)) eqn:E; [|reflexivity].
  apply (substring_in_right_part "-map " "[audio]") in E; congruence.
Qed.

Lemma genVideoCmd_no_audio_witness :
  substring_in "-c:a"
    ("ffmpeg -hide_banner -ss 3 -i a.mp4 -i b.mp4 -vf scale=720x1280,setsar=1:1 "
     ++ "-c:v copy -map_metadata -1 -vsync 2 -movflags +faststart -y build/a.mp4") = false
  /\ substring_in "[audio]"
       ("ffmpeg -hide_banner -ss 3 -i a.mp4 -i b.mp4 -vf scale=720x1280,setsar=1:1 "
        ++ "-c:v copy -map_metadata -1 -vsync 2 -movflags +faststart -y build/a.mp4") = false
  /\ substring_in "-map [audio]"
       ("ffmpeg -hide_banner -ss 3 -i a.mp4 -i b.mp4 -vf scale=720x1280,setsar=1:1 "
        ++ "-c:v copy -map_metadata -1 -vsync 2 -movflags +faststart -y build/a.mp4") = false.
Proof.
  refine (genVideoCmd_no_audio no_audio_example _ _ eq_refl eq_refl eq_refl _).
  intros tok Hin; simpl in Hin.
  repeat (destruct Hin as [Hin | Hin];
          [inversion Hin; subst; split; reflexivity|]).
  contradiction.
Defined.

(** ** The end-to-end example *)

Lemma lines_not_nil : forall s, lines s <> [].
Proof.
  destruct s as [|c s]; simpl; [discriminate|].
  destruct (is_newline c); [discriminate|].
  destruct (lines s); discriminate.
Qed.

Lemma lines_no_newline_app : forall a b,
  no_newline a = true ->
  lines (a ++ b) = match lines b with l :: ls => (a ++ l) :: ls | [] => [] end.
Proof.
  induction a as [|c a IH]; intros b H; simpl in *.
  - destruct (lines b); reflexivity.
  - apply andb_true_iff in H; destruct H as [Hc Ha].
    apply negb_true_iff in Hc; rewrite Hc.
    rewrite IH by assumption.
    destruct (lines b) eqn:E; [|reflexivity].
    exfalso; eapply lines_not_nil; eassumption.
Qed.

(** C10: for the configuration with the one clip [a.mp4], whatever the
    date of the overlay (a text without a newline), the build file is the
    header, the rule of the clip and the aggregate rule.  Its rule lines are
    the [all:] target, which depends on [build/final.mp4], the [clean:]
    target, the clip rule and the aggregate rule, one of each.  The recipe
    of the clip rule has [-i a.mp4], the default scale filter, the default
    audio and video codecs and [-map_metadata -1], and ends with
    [-y build/a.mp4]. *)
Theorem render_single_clip : forall date,
  no_newline date = true ->
  (exists config', render date single_clip_config = Ok (single_clip_text date, config'))
  /\ rule_lines (single_clip_text date)
     = ["all: build/final.mp4"; "clean:"; "build/a.mp4: "; "build/final.mp4: build/a.mp4"]
  /\ In (String.append tab single_clip_recipe) (lines (single_clip_text date))
  /\ substring_in "-i a.mp4" single_clip_recipe = true
  /\ substring_in ("-vf " ++ default_scale) single_clip_recipe = true
  /\ substring_in "-c:a aac" single_clip_recipe = true
  /\ substring_in "-c:v h264" single_clip_recipe = true
  /\ substring_in "-map_metadata -1" single_clip_recipe = true
  /\ ends_with "-y build/a.mp4" single_clip_recipe = true.
Proof.
  intros date H.
  assert (Hlines : lines (single_clip_text date)
                   = [""; "all: build/final.mp4"; ""; "clean:";
                      tab ++ "rm -fv build/*.mp4"; ""; "build/a.mp4: ";
                      tab ++ single_clip_recipe; "";
                      "build/final.mp4: build/a.mp4";
                      tab ++ "ffmpeg -hide_banner -i build/a.mp4 -filter_complex "
                      ++ dquote ++ "[0:v]concat=n=1,drawtext=fontfile="
                      ++ "/home/YouTube/resources/DejaVuSans.ttf:text=" ++ date
                      ++ ":fontcolor=black:fontsize=28:box=1:boxcolor=white@0.8"
                      ++ ":boxborderw=10:x=w-200:y=15"
                      ++ "[video];[0:a]concat=v=0:a=1:n=1[audio]" ++ dquote
                      ++ " -map [video] -map [audio] -map_metadata -1 -c:v h264 "
                      ++ "-c:a aac -vsync 2 -y build/final.mp4";
                      ""; ""]).
  { unfold single_clip_text, single_clip_final, finalText, drawtext, makefile_header,
      single_clip_recipe.
    simpl.
    rewrite append_assoc.
    rewrite (lines_no_newline_app date) by assumption.
    reflexivity. }
  split; [eexists; reflexivity|].
  split; [unfold rule_lines; rewrite Hlines; reflexivity|].
  split; [rewrite Hlines; do 7 right; left; reflexivity|].
  repeat split; reflexivity.
Qed.

Lemma render_single_clip_witness :
  rule_lines (single_clip_text "2021-10-12")
  = ["all: build/final.mp4"; "clean:"; "build/a.mp4: "; "build/final.mp4: build/a.mp4"].
Proof.
  exact (proj1 (proj2 (render_single_clip "2021-10-12" eq_refl))).
Defined.

(** * Further properties *)

(** ** [parseFunction]: what it returns and what it raises *)





(** X1: with nothing to join the method returns the function name and
    ['=']: for an empty list, an empty mapping and the empty string. *)
Theorem parseFunction_empty_args : forall function : string,
  parseFunction (PDict [(function, PList [])]) = Ok (function ++ "=")
  /\ parseFunction (PDict [(function, PDict [])]) = Ok (function ++ "=")
  /\ parseFunction (PDict [(function, PStr "")]) = Ok (function ++ "=").
Proof. intros function; repeat split; reflexivity. Qed.





(** X4: the method raises nothing but an AssertionError, a TypeError or a
    ValueError. *)
Theorem parseFunction_exceptions : forall unit e,
  parseFunction unit = Raise e ->
  (exists msg, e = AssertionError msg) \/ e = TypeError \/ (exists msg, e = ValueError msg).
Proof.
  intros unit e H.
  destruct unit; try (inversion H; left; eexists; reflexivity).
  destruct d as [|[function v] [|kv d]]; try (inversion H; left; eexists; reflexivity).
  apply parseFunction_single_Raise in H.
  destruct H as [-> | [_ ->]]; [right; left; reflexivity|].
  right; right; eexists; reflexivity.
Qed.

Lemma parseFunction_exceptions_witness :
  (exists msg, ValueError ("Unknown type " ++ dquote ++ "<class 'NoneType'>" ++ dquote
                           ++ " from unit[fade]!") = AssertionError msg)
  \/ ValueError ("Unknown type " ++ dquote ++ "<class 'NoneType'>" ++ dquote
                 ++ " from unit[fade]!") = TypeError
  \/ (exists msg, ValueError ("Unknown type " ++ dquote ++ "<class 'NoneType'>" ++ dquote
                              ++ " from unit[fade]!") = ValueError msg).
Proof.
  apply (parseFunction_exceptions (PDict [("fade", PNone)])); reflexivity.
Defined.

(** ** [parseFilterComplex]: composition and errors *)

(** [join] over two lists put together. *)
Lemma concat_app : forall sep (a b : list string),
  a <> [] -> b <> [] ->
  String.concat sep (a ++ b) = String.concat sep a ++ sep ++ String.concat sep b.
Proof.
  intros sep a b Ha Hb; induction a as [|x a IH]; [contradiction|].
  destruct a as [|y a].
  - destruct b as [|z b]; [contradiction | reflexivity].
  - change (String.concat sep ((x :: y :: a) ++ b))
      with (x ++ sep ++ String.concat sep ((y :: a) ++ b)).
    rewrite IH by discriminate.
    change (String.concat sep (x :: y :: a)) with (x ++ sep ++ String.concat sep (y :: a)).
    rewrite !append_assoc; reflexivity.
Qed.

Lemma filterLoop_app : forall pre rest acc acc',
  filterLoop pre acc = Ok acc' ->
  filterLoop (pre ++ rest) acc = filterLoop rest acc'.
Proof.
  induction pre as [|fc pre IH]; intros rest acc acc' H; simpl in *.
  - inversion H; reflexivity.
  - apply bind_Ok in H; destruct H as [frag [Hf H]].
    rewrite Hf; cbn [bind]; apply IH; assumption.
Qed.

Lemma filterLoop_acc : forall fcs acc out,
  filterLoop fcs [] = Ok out -> filterLoop fcs acc = Ok (acc ++ out)%list.
Proof.
  intros fcs acc out H.
  apply filterLoop_spec in H; destruct H as [frags [HF ->]].
  apply filterLoop_spec; exists frags; auto.
Qed.

Lemma filterLoop_nil : forall fcs acc out,
  filterLoop fcs acc = Ok out -> out = [] -> fcs = [].
Proof.
  intros fcs acc out H ->.
  apply filterLoop_spec in H; destruct H as [frags [HF Hnil]].
  symmetry in Hnil; apply app_eq_nil in Hnil; destruct Hnil as [_ ->].
  inversion HF; reflexivity.
Qed.

(** X5: the text of two chains put together is the text of the first, [';']
    and the text of the second, when neither chain is empty. *)
Theorem parseFilterComplex_app : forall a b ra rb,
  parseFilterComplex a = Ok ra ->
  parseFilterComplex b = Ok rb ->
  a <> [] -> b <> [] ->
  parseFilterComplex (a ++ b) = Ok (ra ++ ";" ++ rb).
Proof.
  intros a b ra rb Ha Hb Hna Hnb; unfold parseFilterComplex in *.
  apply bind_Ok in Ha; destruct Ha as [fa [Hfa Ha]]; inversion Ha; subst ra.
  apply bind_Ok in Hb; destruct Hb as [fb [Hfb Hb]]; inversion Hb; subst rb.
  rewrite (filterLoop_app _ _ _ _ Hfa), (filterLoop_acc _ fa _ Hfb); cbn [bind].
  rewrite concat_app; [reflexivity| |].
  - intros ->; apply Hna; eapply filterLoop_nil; [eassumption | reflexivity].
  - intros ->; apply Hnb; eapply filterLoop_nil; [eassumption | reflexivity].
Qed.

Lemma parseFilterComplex_app_witness :
  parseFilterComplex ([PStr "[0:v]null[video]"] ++ [PStr "[0:a]anull[audio]"])%list
  = Ok ("[0:v]null[video]" ++ ";" ++ "[0:a]anull[audio]").
Proof.
  apply (parseFilterComplex_app [PStr "[0:v]null[video]"] [PStr "[0:a]anull[audio]"]);
    [reflexivity | reflexivity | discriminate | discriminate].
Defined.

Lemma filterFragment_error : forall fc e, entry_error fc e -> filterFragment fc = Raise e.
Proof.
  intros fc e H; destruct H; unfold filterFragment, getitem.
  - destruct fc; try reflexivity.
    + exfalso; eapply H; reflexivity.
    + exfalso; eapply H0; reflexivity.
  - rewrite H; reflexivity.
  - rewrite H, H0; reflexivity.
  - rewrite H, H0; cbn [bind]; rewrite H1; reflexivity.
  - rewrite H, H0; cbn [bind]; rewrite H1; cbn [bind].
    destruct istream; try reflexivity.
    exfalso; eapply H2; reflexivity.
  - rewrite H, H0; cbn [bind]; rewrite H1; cbn [bind str_add]; rewrite H2; reflexivity.
  - rewrite H, H0; cbn [bind]; rewrite H1; cbn [bind str_add]; rewrite H2; cbn [bind].
    destruct ostream; try reflexivity.
    exfalso; eapply H3; reflexivity.
Qed.

(** X6: the first entry that cannot be rendered decides the outcome: after
    entries that render, an entry that is neither a string nor a mapping
    raises a TypeError, a mapping without [istream], [func] or [ostream] a
    KeyError with that key, a mapping whose [istream] or [ostream] is not a
    string a TypeError, and a mapping whose function cannot be formatted the
    exception of [parseFunction]; nothing is returned of the entries
    before. *)
Theorem parseFilterComplex_first_error : forall pre frags fc post e,
  Forall2 renders pre frags ->
  entry_error fc e ->
  parseFilterComplex (pre ++ fc :: post) = Raise e.
Proof.
  intros pre frags fc post e Hpre Herr; unfold parseFilterComplex.
  assert (H : filterLoop pre [] = Ok frags)
    by (apply filterLoop_spec; exists frags; auto).
  rewrite (filterLoop_app _ _ _ _ H); cbn [filterLoop].
  rewrite (filterFragment_error _ _ Herr); reflexivity.
Qed.

Lemma parseFilterComplex_first_error_witness :
  parseFilterComplex
    ([PStr "[0:v]null[video]"]
     ++ PDict [("func", PDict [("anull", PList [])]); ("ostream", PStr "[audio]")]
     :: [PInt 3])%list
  = Raise (KeyError "istream").
Proof.
  apply (parseFilterComplex_first_error [PStr "[0:v]null[video]"] ["[0:v]null[video]"]).
  - repeat constructor.
  - apply entry_no_istream; reflexivity.
Defined.

(** ** Joining tokens *)

Lemma cat_app : forall a b, cat (a ++ b)%list = cat a ++ cat b.
Proof.
  induction a as [|x a IH]; intros b; simpl; [reflexivity|].
  rewrite IH, append_assoc; reflexivity.
Qed.

Lemma words_app : forall a b, words (a ++ b)%list = words a ++ words b.
Proof. intros a b; unfold words; rewrite map_app; apply cat_app. Qed.

Lemma words_nil : words [] = "".
Proof. reflexivity. Qed.

Lemma words_cons : forall tok toks, words (tok :: toks) = " " ++ tok ++ words toks.
Proof. intros tok toks; reflexivity. Qed.

Lemma concat_words : forall tok toks,
  String.concat " " (tok :: toks) = tok ++ words toks.
Proof.
  intros tok toks; revert tok; induction toks as [|t toks IH]; intros tok.
  - simpl; rewrite append_nil_r; reflexivity.
  - change (String.concat " " (tok :: t :: toks))
      with (tok ++ " " ++ String.concat " " (t :: toks)).
    rewrite IH; unfold words; simpl; reflexivity.
Qed.

Lemma mapM_app : forall {A B : Type} (f : A -> result B) (a b : list A) (l : list B),
  mapM f (a ++ b)%list = Ok l ->
  exists la lb, mapM f a = Ok la /\ mapM f b = Ok lb /\ l = (la ++ lb)%list.
Proof.
  intros A B f a; induction a as [|x a IH]; intros b l H; simpl in *.
  - exists [], l; auto.
  - apply bind_Ok in H; destruct H as [y [Hy H]].
    apply bind_Ok in H; destruct H as [ys [Hys H]].
    inversion H; subst.
    destruct (IH _ _ Hys) as [la [lb [Ha [Hb ->]]]].
    exists (y :: la), lb; rewrite Hy, Ha; auto.
Qed.

Lemma mapM_app_Ok : forall {A B : Type} (f : A -> result B) (a b : list A) la lb,
  mapM f a = Ok la -> mapM f b = Ok lb -> mapM f (a ++ b)%list = Ok (la ++ lb)%list.
Proof.
  intros A B f a; induction a as [|x a IH]; intros b la lb Ha Hb; simpl in *.
  - inversion Ha; assumption.
  - apply bind_Ok in Ha; destruct Ha as [y [Hy Ha]].
    apply bind_Ok in Ha; destruct Ha as [ys [Hys Ha]].
    inversion Ha; subst.
    rewrite Hy; cbn [bind]; rewrite (IH _ _ _ Hys Hb); reflexivity.
Qed.

(** ** The blocks only append *)

Lemma inputLoop_appends : forall videos res res' videos',
  inputLoop videos res = Ok (res', videos') -> exists toks, res' = (res ++ toks)%list.
Proof.
  induction videos as [|video videos IH]; intros res res' videos' H; simpl in H.
  - inversion H; subst; exists []; rewrite app_nil_r; reflexivity.
  - apply bind_Ok in H; destruct H as [[toks video'] [He H]].
    apply bind_Ok in H; destruct H as [[res'' rest'] [Hl H]].
    inversion H; subst.
    destruct (IH _ _ _ Hl) as [toks' ->].
    exists (toks ++ toks')%list; rewrite app_assoc; reflexivity.
Qed.

Lemma cmd_inputs_appends : forall d res res' d2,
  cmd_inputs d res = Ok (res', d2) -> exists toks, res' = (res ++ toks)%list.
Proof.
  intros d res res' d2 H; unfold cmd_inputs in H.
  apply bind_Ok in H; destruct H as [input [_ H]].
  destruct input; try (inversion H; subst; eexists; reflexivity).
  apply bind_Ok in H; destruct H as [[res'' videos'] [Hl H]].
  inversion H; subst; eapply inputLoop_appends; eassumption.
Qed.

Lemma cmd_filter_appends : forall d res res',
  cmd_filter d res = Ok res' -> exists toks, res' = (res ++ toks)%list.
Proof.
  intros d res res' H; unfold cmd_filter in H.
  destruct (dict_get d "filter_complex") as [fc|];
    [|inversion H; subst; eexists; reflexivity].
  apply bind_Ok in H; destruct H as [res1 [H1 H]].
  apply bind_Ok in H; destruct H as [na [_ H]].
  apply bind_Ok in H; destruct H as [nv [_ H]].
  inversion H; subst; clear H.
  assert (Hres1 : exists t, res1 = ((res ++ [PStr "-filter_complex"]) ++ t)%list).
  { destruct fc; try (inversion H1; subst; first
        [ exists []; rewrite app_nil_r; reflexivity | eexists; reflexivity ]).
    apply bind_Ok in H1; destruct H1 as [s [_ H1]].
    inversion H1; subst; eexists; reflexivity. }
  destruct Hres1 as [t ->].
  destruct na, nv; cbn [negb]; rewrite <- ?app_assoc; eexists; reflexivity.
Qed.

Lemma cmd_codecs_appends : forall d res res',
  cmd_codecs d res = Ok res' -> exists toks, res' = (res ++ toks)%list.
Proof.
  intros d res res' H; unfold cmd_codecs in H.
  apply bind_Ok in H; destruct H as [na [_ H]].
  apply bind_Ok in H; destruct H as [res1 [H1 H]].
  apply bind_Ok in H; destruct H as [nv [_ H]].
  assert (Hres1 : exists t, res1 = (res ++ t)%list).
  { destruct na; cbn [negb] in H1.
    - inversion H1; subst; exists []; rewrite app_nil_r; reflexivity.
    - apply bind_Ok in H1; destruct H1 as [codec [_ H1]].
      inversion H1; subst; eexists; reflexivity. }
  destruct Hres1 as [t ->].
  destruct nv; cbn [negb] in H.
  - inversion H; subst; eexists; reflexivity.
  - apply bind_Ok in H; destruct H as [codec [_ H]].
    inversion H; subst; rewrite <- app_assoc; eexists; reflexivity.
Qed.

Lemma cmd_tail_shape : forall d res res',
  cmd_tail d res = Ok res' ->
  exists mid out,
    dict_get d "output" = Some out
    /\ res' = (res ++ [PStr "-map_metadata"; PStr "-1"] ++ mid ++ [PStr "-y"; out])%list.
Proof.
  intros d res res' H; unfold cmd_tail, lookup in H.
  apply bind_Ok in H; destruct H as [attrs [_ H]].
  apply bind_Ok in H; destruct H as [vsync [_ H]].
  apply bind_Ok in H; destruct H as [res0 [Hm H]].
  apply bind_Ok in H; destruct H as [out [Ho H]].
  apply getitem_Ok in Ho; destruct Ho as [d' [Hd' Ho]]; inversion Hd'; subst d'.
  inversion H; subst; clear H.
  assert (Hres0 : exists mid,
            res0 = ((res ++ [PStr "-map_metadata"; PStr "-1"]) ++ mid)%list).
  { destruct (dict_get d "movflags") as [flags|].
    - apply bind_Ok in Hm; destruct Hm as [movflags [_ Hm]].
      inversion Hm; subst.
      destruct vsync; [|eexists; reflexivity].
      exists [PStr "-vsync 2"; PStr ("-movflags " ++ movflags)].
      rewrite <- app_assoc; reflexivity.
    - inversion Hm; subst.
      destruct vsync; [eexists; reflexivity|].
      exists []; rewrite app_nil_r; reflexivity. }
  destruct Hres0 as [mid ->].
  exists mid, out; split; [assumption|].
  rewrite <- !app_assoc; reflexivity.
Qed.

(** X7: every command starts with the executable and its banner flag, has
    the flag that strips the metadata, and ends with the overwrite flag and
    the output path of the clip, which is a string. *)
Theorem genVideoCmd_shape : forall d cmd config',
  genVideoCmd (PDict d) = Ok (cmd, config') ->
  exists out front back,
    dict_get d "output" = Some (PStr out)
    /\ cmd = "ffmpeg -hide_banner" ++ front ++ " -map_metadata -1" ++ back
             ++ " -y " ++ out.
Proof.
  intros d cmd config' H.
  apply genVideoCmd_Ok in H.
  destruct H as [d0 [res1 [d2 [res2 [res3 [res4 [Hd [H1 [H2 [H3 [H4 [H5 _]]]]]]]]]]]].
  inversion Hd; subst d0; clear Hd.
  destruct (cmd_inputs_fields _ _ _ _ H1) as [_ [_ Hsame]].
  destruct (cmd_inputs_appends _ _ _ _ H1) as [t1 ->].
  destruct (cmd_filter_appends _ _ _ H2) as [t2 ->].
  destruct (cmd_codecs_appends _ _ _ H3) as [t3 ->].
  destruct (cmd_tail_shape _ _ _ H4) as [mid [out [Hout ->]]].
  rewrite Hsame in Hout by discriminate.
  unfold str_join in H5; cbn [py_iter bind] in H5.
  apply bind_Ok in H5; destruct H5 as [strs [Hstrs H5]].
  inversion H5; subst cmd; clear H5.
  rewrite <- !app_assoc in Hstrs.
  apply mapM_app in Hstrs; destruct Hstrs as [s0 [sr [Hs0 [Hsr ->]]]].
  inversion Hs0; subst s0; clear Hs0.
  apply mapM_app in Hsr; destruct Hsr as [s1 [sr' [_ [Hsr ->]]]].
  apply mapM_app in Hsr; destruct Hsr as [s2 [sr [_ [Hsr ->]]]].
  apply mapM_app in Hsr; destruct Hsr as [s3 [sr' [_ [Hsr ->]]]].
  apply (mapM_app as_str [PStr "-map_metadata"; PStr "-1"]) in Hsr.
  destruct Hsr as [sm [sr [Hsm [Hsr ->]]]].
  inversion Hsm; subst sm; clear Hsm.
  apply mapM_app in Hsr; destruct Hsr as [smid [sy [_ [Hsy ->]]]].
  destruct out; try discriminate.
  inversion Hsy; subst sy; clear Hsy.
  exists s, (words (s1 ++ s2 ++ s3)%list), (words smid); split; [exact Hout|].
  cbn [List.app]; rewrite concat_words.
  repeat (rewrite words_cons || rewrite words_app).
  rewrite words_nil, append_nil_r, !append_assoc; reflexivity.
Qed.

Lemma genVideoCmd_shape_witness :
  exists out front back,
    dict_get structured_clip "output" = Some (PStr out)
    /\ structured_clip_cmd
       = "ffmpeg -hide_banner" ++ front ++ " -map_metadata -1" ++ back ++ " -y " ++ out.
Proof.
  eapply (genVideoCmd_shape structured_clip structured_clip_cmd); reflexivity.
Defined.

(** ** The command of a clip with plain inputs *)

Lemma inputLoop_plain : forall (paths : list string) (res : list pyval),
  inputLoop (map PStr paths) res
  = Ok ((res ++ map PStr (flat_map (fun path => ["-i"; path]) paths))%list,
        map PStr paths).
Proof.
  induction paths as [|path paths IH]; intros res.
  - simpl; rewrite app_nil_r; reflexivity.
  - cbn [map inputLoop inputEntry bind]; rewrite IH; cbn [bind flat_map map List.app].
    rewrite <- app_assoc; reflexivity.
Qed.

Lemma cmd_inputs_plain_paths : forall d input paths res,
  dict_get d "input" = Some input ->
  plain_paths input = Ok paths ->
  cmd_inputs d res
  = Ok ((res ++ map PStr (flat_map (fun path => ["-i"; path]) paths))%list, d).
Proof.
  intros d input paths res Hin Hp; unfold cmd_inputs, lookup, getitem.
  rewrite Hin; cbn [bind].
  destruct input; simpl in Hp; try discriminate.
  - inversion Hp; subst; reflexivity.
  - apply mapM_as_str_inv in Hp; subst l.
    rewrite inputLoop_plain; cbn [bind].
    rewrite dict_set_same_value by assumption; reflexivity.
Qed.

Lemma cmd_codecs_default : forall d attrs res,
  dict_get_default d "attributes" (PList []) = PList attrs ->
  dict_get d "codec" = None ->
  cmd_codecs d res
  = Ok (res ++ map PStr
          ((if existsb (is_str "no-audio") attrs then [] else ["-c:a"; "aac"])
           ++ (if existsb (is_str "no-video") attrs then [] else ["-c:v"; "h264"])))%list.
Proof.
  intros d attrs res Ha Hc; unfold cmd_codecs.
  rewrite Ha; unfold dict_get_default at 1 2; rewrite Hc; cbn [py_in bind].
  destruct (existsb (is_str "no-audio") attrs), (existsb (is_str "no-video") attrs);
    cbn [negb bind get_default dict_get map List.app];
    rewrite <- ?app_assoc, ?app_nil_r; reflexivity.
Qed.

Lemma cmd_tail_default : forall d attrs out res,
  dict_get d "attributes" = Some (PList attrs) ->
  dict_get d "movflags" = None ->
  dict_get d "output" = Some (PStr out) ->
  cmd_tail d res
  = Ok (res ++ map PStr
          (["-map_metadata"; "-1"]
           ++ (if existsb (is_str "vsync") attrs then ["-vsync 2"] else [])
           ++ ["-y"; out]))%list.
Proof.
  intros d attrs out res Ha Hm Ho; unfold cmd_tail, lookup, getitem.
  rewrite Ha, Hm, Ho; cbn [bind py_in].
  destruct (existsb (is_str "vsync") attrs); cbn [map List.app];
    rewrite <- ?app_assoc; reflexivity.
Qed.

Lemma words_inputs : forall paths : list string,
  words (flat_map (fun path => ["-i"; path]) paths) = input_flags paths.
Proof.
  unfold input_flags; induction paths as [|path paths IH]; [reflexivity|].
  cbn [flat_map List.app map cat]; rewrite !words_cons, IH.
  rewrite !append_assoc; reflexivity.
Qed.

(** X8: the command of a clip that has plain input paths, a string output
    and attributes in a list, and neither filter chain nor codecs nor
    movflags: one [-i] flag per path in order, the default scale filter, the
    default audio codec unless [no-audio] and the default video codec unless
    [no-video] are among the attributes, the metadata flag, the vsync flag
    if [vsync] is among them, and the output.  The clip gets its defaults
    and the command, and no other change. *)
Theorem genVideoCmd_default : forall d input paths attrs out,
  dict_get d "input" = Some input ->
  plain_paths input = Ok paths ->
  dict_get_default d "attributes" (PList []) = PList attrs ->
  dict_get d "output" = Some (PStr out) ->
  dict_get d "filter_complex" = None ->
  dict_get d "codec" = None ->
  dict_get d "movflags" = None ->
  genVideoCmd (PDict d)
  = Ok (command_text (input_flags paths) (" -vf " ++ default_scale)
          attrs "aac" "h264" "" out,
        PDict (dict_set (cmd_defaults d) "ffmpeg"
                 (PStr (command_text (input_flags paths) (" -vf " ++ default_scale)
                          attrs "aac" "h264" "" out)))).
Proof.
  intros d input paths attrs out Hin Hp Ha Ho Hfc Hc Hm.
  unfold genVideoCmd; cbv zeta.
  rewrite (cmd_inputs_plain_paths _ input paths)
    by (rewrite ?dict_get_cmd_defaults; assumption); cbn [bind].
  rewrite cmd_filter_none by (rewrite dict_get_cmd_defaults; assumption); cbn [bind].
  rewrite (cmd_codecs_default _ attrs); cbn [bind].
  2: { unfold dict_get_default at 1; rewrite dict_get_cmd_defaults; assumption. }
  2: { rewrite dict_get_cmd_defaults; assumption. }
  rewrite (cmd_tail_default _ attrs out); cbn [bind].
  2: { rewrite dict_get_cmd_defaults; simpl; rewrite Ha; reflexivity. }
  2: { rewrite dict_get_cmd_defaults; assumption. }
  2: { rewrite dict_get_cmd_defaults; assumption. }
  change [PStr "ffmpeg"; PStr "-hide_banner"] with (map PStr ["ffmpeg"; "-hide_banner"]).
  change [PStr "-vf"; PStr default_scale] with (map PStr ["-vf"; default_scale]).
  rewrite <- !map_app, str_join_strings; cbn [bind].
  assert (Hcmd : String.concat " "
            (((((["ffmpeg"; "-hide_banner"]
                 ++ flat_map (fun path => ["-i"; path]) paths)
                ++ ["-vf"; default_scale])
               ++ (if existsb (is_str "no-audio") attrs then [] else ["-c:a"; "aac"])
                  ++ (if existsb (is_str "no-video") attrs then [] else ["-c:v"; "h264"]))
              ++ ["-map_metadata"; "-1"]
                 ++ (if existsb (is_str "vsync") attrs then ["-vsync 2"] else [])
                    ++ ["-y"; out]))%list
          = command_text (input_flags paths) (" -vf " ++ default_scale)
              attrs "aac" "h264" "" out).
  { unfold command_text, input_flags.
    rewrite <- !app_assoc; cbn [List.app]; rewrite concat_words.
    rewrite words_cons, !words_app, words_inputs; unfold input_flags.
    destruct (existsb (is_str "no-audio") attrs), (existsb (is_str "no-video") attrs),
      (existsb (is_str "vsync") attrs);
      cbn [List.app]; repeat (rewrite words_cons || rewrite words_nil);
      unfold default_scale; rewrite ?append_nil_r, ?append_assoc; reflexivity. }
  rewrite Hcmd; reflexivity.
Qed.

Lemma genVideoCmd_default_witness :
  genVideoCmd (PDict two_input_clip)
  = Ok (command_text (input_flags ["a.mp4"; "b.mp4"]) (" -vf " ++ default_scale)
          [PStr "no-audio"; PStr "vsync"] "aac" "h264" "" "build/ab.mp4",
        PDict (dict_set (cmd_defaults two_input_clip) "ffmpeg"
                 (PStr (command_text (input_flags ["a.mp4"; "b.mp4"])
                          (" -vf " ++ default_scale)
                          [PStr "no-audio"; PStr "vsync"] "aac" "h264" ""
                          "build/ab.mp4")))).
Proof.
  exact (genVideoCmd_default two_input_clip (PList [PStr "a.mp4"; PStr "b.mp4"])
           ["a.mp4"; "b.mp4"] [PStr "no-audio"; PStr "vsync"] "build/ab.mp4"
           eq_refl eq_refl eq_refl eq_refl eq_refl eq_refl eq_refl).
Defined.



(** ** The instance and its build file *)

(** The output of a clip whose command could be joined is a string. *)
Lemma genVideoCmd_output : forall d cmd config',
  genVideoCmd (PDict d) = Ok (cmd, config') ->
  exists out, dict_get d "output" = Some (PStr out).
Proof.
  intros d cmd config' H.
  apply genVideoCmd_Ok in H.
  destruct H as [d0 [res1 [d2 [res2 [res3 [res4 [Hd [H1 [_ [_ [H4 [H5 _]]]]]]]]]]]].
  inversion Hd; subst d0; clear Hd.
  destruct (cmd_inputs_fields _ _ _ _ H1) as [_ [_ Hsame]].
  destruct (cmd_tail_shape _ _ _ H4) as [mid [out [Hout ->]]].
  rewrite Hsame in Hout by discriminate.
  apply str_join_list_Ok in H5; destruct H5 as [strs [Hstrs _]].
  assert (Hin : In out (map PStr strs)).
  { rewrite <- Hstrs; apply in_or_app; right.
    apply in_or_app; right; apply in_or_app; right; right; left; reflexivity. }
  apply in_map_iff in Hin; destruct Hin as [s [<- _]].
  exists s; assumption.
Qed.

Lemma genVideoCmd_rendered : forall config cmd config',
  genVideoCmd config = Ok (cmd, config') -> rendered config'.
Proof.
  intros config cmd config' H.
  pose proof (genVideoCmd_in_inventory _ _ _ H) as Hinv.
  pose proof (genVideoCmd_require _ _ _ H) as [d' [req [Hd' Hreq]]].
  pose proof H as H'.
  apply genVideoCmd_Ok in H'.
  destruct H' as [d [res1 [d2 [res2 [res3 [res4 [-> [H1 [_ [_ [_ [_ Hc']]]]]]]]]]]].
  destruct (genVideoCmd_output _ _ _ H) as [out Hout].
  destruct (cmd_inputs_fields _ _ _ _ H1) as [_ [_ Hsame]].
  subst config'; inversion Hc'; subst d'.
  exists (dict_set d2 "ffmpeg" (PStr cmd)), cmd, out, req.
  split; [reflexivity|]; split; [apply dict_get_set_same|].
  split; [|split; assumption].
  rewrite dict_get_set_other by reflexivity.
  rewrite Hsame by discriminate; assumption.
Qed.

Lemma genVideoCmd_state_rendered : forall clips clips',
  mapM genVideoCmd_state clips = Ok clips' -> Forall rendered clips'.
Proof.
  induction clips as [|clip clips IH]; intros clips' H; simpl in H.
  - inversion H; constructor.
  - apply bind_Ok in H; destruct H as [clip' [Hc H]].
    apply bind_Ok in H; destruct H as [rest' [Hr H]].
    inversion H; subst.
    constructor; [|apply IH; assumption].
    unfold genVideoCmd_state in Hc.
    apply bind_Ok in Hc; destruct Hc as [[cmd c] [Hg Hc]].
    inversion Hc; subst.
    eapply genVideoCmd_rendered; eassumption.
Qed.

(** X10: after construction every clip of the instance carries its command
    as a string under [ffmpeg], a string [output], a [require] field and
    attributes that can be searched. *)
Theorem FFMPEG_init_rendered : forall config ff,
  FFMPEG_init config = Ok ff -> Forall rendered (clips_of ff).
Proof.
  intros config ff H; unfold FFMPEG_init in H.
  destruct (buildVideoCmds_Ok _ _ H)
    as [[d [clips [clips' [-> [Hd [Hm ->]]]]]] | [-> [videos [Hv [Hnl Hit]]]]].
  - unfold clips_of, getitem; rewrite dict_get_set_same; cbn [py_iter].
    eapply genVideoCmd_state_rendered; eassumption.
  - unfold clips_of; rewrite Hv, Hit; constructor.
Qed.

Lemma FFMPEG_init_rendered_witness : Forall rendered (clips_of single_clip_instance).
Proof.
  exact (FFMPEG_init_rendered single_clip_config single_clip_instance eq_refl).
Defined.

Lemma clipRule_rendered : forall clip,
  rendered clip -> clipRule clip = Ok (clip_rule clip, clip).
Proof.
  intros clip [d [cmd [out [req [-> [Hf [Ho [Hr _]]]]]]]].
  unfold clipRule, clip_rule, field_text, lookup, getitem.
  rewrite (dict_set_default_present d "require" _ req) by assumption.
  rewrite Ho, Hr, Hf; cbn [bind str_add py_str].
  rewrite !append_assoc; reflexivity.
Qed.

Lemma rulesLoop_rendered : forall clips text,
  Forall rendered clips ->
  rulesLoop clips text = Ok (text ++ cat (map clip_rule clips), clips).
Proof.
  induction clips as [|clip clips IH]; intros text Hall.
  - simpl; rewrite append_nil_r; reflexivity.
  - inversion Hall as [|? ? Hc Hrest]; subst.
    cbn [rulesLoop]; rewrite (clipRule_rendered _ Hc); cbn [bind].
    rewrite IH by assumption; cbn [bind map cat].
    rewrite append_assoc; reflexivity.
Qed.

Lemma rendered_in_inventory : forall clips,
  Forall rendered clips -> Forall in_inventory clips.
Proof.
  intros clips H; induction H as [|clip clips Hc _ IH]; constructor; [|assumption].
  destruct Hc as [d [cmd [out [req [_ [_ [_ [_ Hinv]]]]]]]]; assumption.
Qed.

Lemma genFinalCmd_rendered : forall date config videos clips,
  getitem config "videos" = Ok videos ->
  py_iter videos = Ok clips ->
  Forall rendered clips ->
  genFinalCmd date config = Ok (aggregate_rule date clips).
Proof.
  intros date config videos clips Hv Hit Hall.
  unfold genFinalCmd; rewrite Hv; cbn [bind]; rewrite Hit; cbn [bind].
  rewrite finalLoop_spec by (apply rendered_in_inventory; assumption).
  cbn [bind deps input vstreams astreams].
  rewrite parseFunction_POST_DATE; reflexivity.
Qed.

(** X11: on a constructed instance [Makefile] cannot fail and leaves the
    configuration as it is; its text is the header, the rule of every clip
    in the order of the list (also of the clips marked [not-a-build]) and
    the aggregate rule of the clips that are not marked. *)
Theorem Makefile_instance : forall date config ff,
  FFMPEG_init config = Ok ff ->
  Makefile date ff
  = Ok (makefile_header ++ cat (map clip_rule (clips_of ff))
        ++ aggregate_rule date (clips_of ff), ff).
Proof.
  intros date config ff H; unfold FFMPEG_init in H.
  destruct (buildVideoCmds_Ok _ _ H)
    as [[d [clips [clips' [-> [Hd [Hm ->]]]]]] | [-> [videos [Hv [Hnl Hit]]]]].
  - pose proof (genVideoCmd_state_rendered _ _ Hm) as Hall.
    set (d1 := dict_set d "videos" (PList clips')).
    assert (Hd1 : dict_get d1 "videos" = Some (PList clips'))
      by apply dict_get_set_same.
    assert (Hclips : clips_of (PDict d1) = clips')
      by (unfold clips_of, getitem; rewrite Hd1; reflexivity).
    rewrite Hclips; unfold Makefile, getitem; rewrite Hd1; cbn [bind py_iter].
    rewrite rulesLoop_rendered by assumption; cbn [bind].
    rewrite (dict_set_same_value d1) by assumption.
    rewrite (genFinalCmd_rendered date (PDict d1) (PList clips') clips');
      [|unfold getitem; rewrite Hd1; reflexivity|reflexivity|assumption].
    cbn [bind]; rewrite append_assoc; reflexivity.
  - assert (Hclips : clips_of config = [])
      by (unfold clips_of; rewrite Hv, Hit; reflexivity).
    rewrite Hclips; unfold Makefile; rewrite Hv; cbn [bind].
    rewrite Hit; cbn [bind rulesLoop].
    assert (Hcfg : match config with
                   | PDict d0 => match videos with
                                 | PList _ => PDict (dict_set d0 "videos" (PList []))
                                 | _ => config
                                 end
                   | _ => config
                   end = config).
    { destruct config; try reflexivity.
      destruct videos; try reflexivity.
      exfalso; eapply Hnl; reflexivity. }
    rewrite Hcfg.
    rewrite (genFinalCmd_rendered date config videos []); [|assumption|assumption|constructor].
    reflexivity.
Qed.

Lemma Makefile_instance_witness :
  Makefile "2021-10-12" single_clip_instance
  = Ok (makefile_header ++ cat (map clip_rule (clips_of single_clip_instance))
        ++ aggregate_rule "2021-10-12" (clips_of single_clip_instance),
        single_clip_instance).
Proof.
  exact (Makefile_instance "2021-10-12" single_clip_config single_clip_instance eq_refl).
Defined.

Lemma mapM_first_error : forall {A B : Type} (f : A -> result B) pre x post e,
  Forall (fun a => exists b, f a = Ok b) pre ->
  f x = Raise e ->
  mapM f (pre ++ x :: post)%list = Raise e.
Proof.
  intros A B f pre x post e Hpre Hx; induction Hpre as [|a pre [b Ha] _ IH]; simpl.
  - rewrite Hx; reflexivity.
  - rewrite Ha; cbn [bind]; rewrite IH; reflexivity.
Qed.

(** X12: a document without [videos] stops the run with a KeyError, and a
    clip that cannot be rendered stops it with the exception of that clip,
    whatever the clips after it are: no text is produced. *)
Theorem render_aborts : forall date d,
  (dict_get d "videos" = None -> render date (PDict d) = Raise (KeyError "videos"))
  /\ (forall pre clip post e,
        dict_get d "videos" = Some (PList (pre ++ clip :: post)%list) ->
        Forall (fun c => exists cmd c', genVideoCmd c = Ok (cmd, c')) pre ->
        genVideoCmd clip = Raise e ->
        render date (PDict d) = Raise e).
Proof.
  intros date d; split.
  - intros H; unfold render, FFMPEG_init, buildVideoCmds, getitem.
    rewrite H; reflexivity.
  - intros pre clip post e Hv Hpre Hclip.
    unfold render, FFMPEG_init, buildVideoCmds, getitem.
    rewrite Hv; cbn [bind].
    rewrite (mapM_first_error genVideoCmd_state pre clip post e); [reflexivity| |].
    + eapply Forall_impl; [|exact Hpre].
      intros c [cmd [c' Hc]]; exists c'.
      unfold genVideoCmd_state; rewrite Hc; reflexivity.
    + unfold genVideoCmd_state; rewrite Hclip; reflexivity.
Qed.

Lemma render_aborts_witness :
  render "2021-10-12" (PDict broken_config) = Raise (KeyError "input").
Proof.
  refine (proj2 (render_aborts "2021-10-12" broken_config)
            [PDict [("input", PStr "a.mp4"); ("output", PStr "build/a.mp4")]]
            (PDict [("output", PStr "build/b.mp4")])
            [PDict [("input", PStr "c.mp4"); ("output", PStr "build/c.mp4")]]
            (KeyError "input") eq_refl _ eq_refl).
  constructor; [|constructor].
  do 2 eexists; reflexivity.
Defined.

(** ** [_genVideoCmd]: the command, part by part *)

Lemma inputEntry_strs : forall video toks,
  entry_strs video = Ok toks ->
  inputEntry video = Ok (map PStr toks, strip_i video).
Proof.
  intros video toks H; destruct video; simpl in H; try discriminate.
  - inversion H; subst; reflexivity.
  - unfold inputEntry.
    apply bind_Ok in H; destruct H as [iv [Hi H]].
    inversion H; subst; rewrite Hi; cbn [bind strip_i].
    rewrite map_app, map_map; cbn [map].
    do 3 f_equal.
    apply map_ext; intros [opt val]; reflexivity.
Qed.

Lemma inputLoop_strs : forall videos l res,
  mapM entry_strs videos = Ok l ->
  inputLoop videos res
  = Ok ((res ++ map PStr (List.concat l))%list, map strip_i videos).
Proof.
  induction videos as [|video videos IH]; intros l res H; simpl in H.
  - inversion H; subst; simpl; rewrite app_nil_r; reflexivity.
  - apply bind_Ok in H; destruct H as [toks [Ht H]].
    apply bind_Ok in H; destruct H as [l' [Hl H]].
    inversion H; subst.
    cbn [inputLoop]; rewrite (inputEntry_strs _ _ Ht); cbn [bind].
    rewrite (IH _ _ Hl); cbn [bind List.concat map].
    rewrite map_app, app_assoc; reflexivity.
Qed.

Lemma cmd_inputs_strs : forall d input toks res,
  dict_get d "input" = Some input ->
  input_strs input = Ok toks ->
  cmd_inputs d res
  = Ok ((res ++ map PStr toks)%list, dict_set d "input" (strip_inputs input)).
Proof.
  intros d input toks res Hin H; unfold cmd_inputs, lookup, getitem.
  rewrite Hin; cbn [bind].
  destruct input; simpl in H; try discriminate.
  - inversion H; subst; cbn [map strip_inputs].
    rewrite dict_set_same_value by assumption; reflexivity.
  - apply bind_Ok in H; destruct H as [l' [Hl H]].
    inversion H; subst.
    rewrite (inputLoop_strs _ _ _ Hl); reflexivity.
Qed.

Lemma cmd_filter_strs : forall d toks res,
  chain_strs d = Ok toks ->
  cmd_filter d res = Ok (res ++ map PStr toks)%list.
Proof.
  intros d toks res H; unfold chain_strs, cmd_filter, flag in *.
  destruct (dict_get d "filter_complex") as [fc|];
    [|inversion H; subst; reflexivity].
  apply bind_Ok in H; destruct H as [arg [Harg H]].
  apply bind_Ok in H; destruct H as [na [Hna H]].
  apply bind_Ok in H; destruct H as [nv [Hnv H]].
  inversion H; subst; clear H.
  assert (Hfc : match fc with
                | PStr _ => Ok ((res ++ [PStr "-filter_complex"]) ++ [fc])%list
                | PList l =>
                    s <- parseFilterComplex l ;;
                    Ok ((res ++ [PStr "-filter_complex"])
                        ++ [PStr (dquote ++ s ++ dquote)%string])%list
                | _ => Ok (res ++ [PStr "-filter_complex"])%list
                end = Ok ((res ++ [PStr "-filter_complex"]) ++ map PStr arg)%list).
  { destruct fc; simpl in Harg; try (inversion Harg; subst; simpl;
      rewrite ?app_nil_r; reflexivity).
    apply bind_Ok in Harg; destruct Harg as [s [Hs Harg]].
    inversion Harg; subst; rewrite Hs; reflexivity. }
  rewrite Hfc; cbn [bind]; rewrite Hna; cbn [bind]; rewrite Hnv; cbn [bind].
  destruct na, nv; norm_tokens; reflexivity.
Qed.

Lemma cmd_codecs_strs : forall d toks res,
  codec_strs d = Ok toks ->
  cmd_codecs d res = Ok (res ++ map PStr toks)%list.
Proof.
  intros d toks res H; unfold codec_strs, cmd_codecs, flag, codec_name in *.
  apply bind_Ok in H; destruct H as [na [Hna H]].
  apply bind_Ok in H; destruct H as [a [Ha H]].
  apply bind_Ok in H; destruct H as [nv [Hnv H]].
  apply bind_Ok in H; destruct H as [v [Hv H]].
  inversion H; subst; clear H.
  rewrite Hna; cbn [bind].
  assert (Haudio : (if negb na
                    then codec <- get_default (dict_get_default d "codec" (PDict []))
                                    "audio" (PStr "aac") ;;
                         Ok (res ++ [PStr "-c:a"; codec])%list
                    else Ok res) = Ok (res ++ map PStr a)%list).
  { destruct na; cbn [negb].
    - inversion Ha; subst; simpl; rewrite app_nil_r; reflexivity.
    - apply bind_Ok in Ha; destruct Ha as [c [Hc Ha]].
      inversion Ha; subst.
      apply bind_Ok in Hc; destruct Hc as [cv [Hcv Hc]].
      destruct cv; try discriminate; inversion Hc; subst.
      rewrite Hcv; reflexivity. }
  rewrite Haudio; cbn [bind]; rewrite Hnv; cbn [bind].
  destruct nv; cbn [negb].
  - inversion Hv; subst; rewrite app_nil_r; reflexivity.
  - apply bind_Ok in Hv; destruct Hv as [c [Hc Hv]].
    inversion Hv; subst.
    apply bind_Ok in Hc; destruct Hc as [cv [Hcv Hc]].
    destruct cv; try discriminate; inversion Hc; subst.
    rewrite Hcv; cbn [bind]; rewrite map_app, <- app_assoc; reflexivity.
Qed.

Lemma cmd_tail_strs : forall d toks res,
  tail_strs d = Ok toks ->
  dict_get d "attributes" = Some (dict_get_default d "attributes" (PList [])) ->
  cmd_tail d res = Ok (res ++ map PStr toks)%list.
Proof.
  intros d toks res H Hattrs; unfold tail_strs, cmd_tail, flag, movflags_strs in *.
  apply bind_Ok in H; destruct H as [vsync [Hvs H]].
  apply bind_Ok in H; destruct H as [mv [Hmv H]].
  apply bind_Ok in H; destruct H as [output [Ho H]].
  apply bind_Ok in H; destruct H as [out [Hout H]].
  destruct output; try discriminate; inversion Hout; subst out.
  inversion H; subst; clear H.
  unfold lookup at 1, getitem; rewrite Hattrs; cbn [bind].
  rewrite Hvs; cbn [bind].
  assert (Hmov : match dict_get d "movflags" with
                 | Some flags =>
                     movflags <- str_join " " flags ;;
                     Ok ((if vsync
                          then ((res ++ [PStr "-map_metadata"; PStr "-1"])
                                ++ [PStr "-vsync 2"])%list
                          else (res ++ [PStr "-map_metadata"; PStr "-1"])%list)
                         ++ [PStr ("-movflags " ++ movflags)%string])%list
                 | None =>
                     Ok (if vsync
                         then ((res ++ [PStr "-map_metadata"; PStr "-1"])
                               ++ [PStr "-vsync 2"])%list
                         else (res ++ [PStr "-map_metadata"; PStr "-1"])%list)
                 end
                 = Ok (res ++ map PStr (["-map_metadata"; "-1"]
                                        ++ (if vsync then ["-vsync 2"] else [])
                                        ++ mv))%list).
  { destruct (dict_get d "movflags") as [flags|].
    - apply bind_Ok in Hmv; destruct Hmv as [m [Hm Hmv]].
      inversion Hmv; subst; rewrite Hm; cbn [bind].
      destruct vsync; cbn [map List.app]; rewrite <- ?app_assoc; reflexivity.
    - inversion Hmv; subst.
      destruct vsync; cbn [map List.app]; rewrite <- ?app_assoc; reflexivity. }
  rewrite Hmov; cbn [bind]; rewrite Ho; cbn [bind].
  norm_tokens; reflexivity.
Qed.

(** The parts read the clip through fields the input loop leaves alone. *)
Lemma parts_after_inputs : forall d d2,
  dict_get d2 "attributes" = Some (dict_get_default d "attributes" (PList [])) ->
  (forall k, k <> "input" -> k <> "attributes" -> k <> "require" ->
             dict_get d2 k = dict_get d k) ->
  chain_strs d2 = chain_strs d
  /\ codec_strs d2 = codec_strs d
  /\ tail_strs d2 = tail_strs d.
Proof.
  intros d d2 Ha Hsame.
  assert (Hattrs : dict_get_default d2 "attributes" (PList [])
                   = dict_get_default d "attributes" (PList []))
    by (unfold dict_get_default at 1; rewrite Ha; reflexivity).
  assert (Hcodec : dict_get_default d2 "codec" (PDict [])
                   = dict_get_default d "codec" (PDict []))
    by (unfold dict_get_default; rewrite Hsame by discriminate; reflexivity).
  split; [|split].
  - unfold chain_strs, flag.
    rewrite Hattrs, (Hsame "filter_complex") by discriminate; reflexivity.
  - unfold codec_strs, codec_name, flag; rewrite Hattrs, Hcodec; reflexivity.
  - unfold tail_strs, movflags_strs, flag, lookup, getitem.
    rewrite Hattrs, (Hsame "movflags"), (Hsame "output") by discriminate; reflexivity.
Qed.

Lemma genVideoCmd_of_strs : forall d toks,
  clip_strs d = Ok toks ->
  genVideoCmd (PDict d)
  = Ok (String.concat " " toks, clip_after d (String.concat " " toks)).
Proof.
  intros d toks H; unfold clip_strs in H.
  apply bind_Ok in H; destruct H as [input [Hin H]].
  apply bind_Ok in H; destruct H as [i [Hi H]].
  apply bind_Ok in H; destruct H as [f [Hf H]].
  apply bind_Ok in H; destruct H as [c [Hc H]].
  apply bind_Ok in H; destruct H as [t [Ht H]].
  inversion H; subst toks; clear H.
  unfold lookup in Hin.
  apply getitem_Ok in Hin; destruct Hin as [d' [Hd' Hin]]; inversion Hd'; subst d'.
  assert (Hin1 : dict_get (cmd_defaults d) "input" = Some input)
    by (rewrite dict_get_cmd_defaults; assumption).
  pose proof (cmd_inputs_strs _ _ _ [PStr "ffmpeg"; PStr "-hide_banner"] Hin1 Hi) as H1.
  destruct (cmd_inputs_fields _ _ _ _ H1) as [Hattrs [_ Hsame]].
  destruct (parts_after_inputs _ _ Hattrs Hsame) as [Ef [Ec Et]].
  unfold genVideoCmd, clip_after; cbv zeta.
  rewrite H1; cbn [bind].
  rewrite (cmd_filter_strs _ f) by (rewrite Ef; assumption); cbn [bind].
  rewrite (cmd_codecs_strs _ c) by (rewrite Ec; assumption); cbn [bind].
  rewrite (cmd_tail_strs _ t); cbn [bind].
  2: { rewrite Et; assumption. }
  2: { rewrite Hattrs; unfold dict_get_default at 2; rewrite Hattrs; reflexivity. }
  change [PStr "ffmpeg"; PStr "-hide_banner"] with (map PStr ["ffmpeg"; "-hide_banner"]).
  rewrite <- !map_app, str_join_strings; cbn [bind].
  rewrite <- !app_assoc.
  unfold dict_get_default; rewrite Hin; reflexivity.
Qed.

Lemma all_str_app : forall a b, all_str (a ++ b)%list <-> all_str a /\ all_str b.
Proof. intros a b; unfold all_str; apply Forall_app. Qed.

Lemma all_str_strings : forall l : list string, all_str (map PStr l).
Proof.
  induction l as [|s l IH]; constructor; [eexists; reflexivity | assumption].
Qed.

Lemma inputEntry_strs_inv : forall video toks video',
  inputEntry video = Ok (toks, video') -> all_str toks ->
  exists l, entry_strs video = Ok l.
Proof.
  intros video toks video' H Hall.
  destruct video;
    try (inversion H; subst; inversion Hall as [|? ? _ Hall']; subst;
         inversion Hall' as [|? ? [s Hs] _]; subst; discriminate).
  - eexists; reflexivity.
  - unfold inputEntry in H; unfold entry_strs.
    apply bind_Ok in H; destruct H as [iv [Hi _]].
    rewrite Hi; eexists; reflexivity.
Qed.

Lemma inputLoop_strs_inv : forall videos res res' videos',
  inputLoop videos res = Ok (res', videos') -> all_str res' ->
  exists l, mapM entry_strs videos = Ok l.
Proof.
  induction videos as [|video videos IH]; intros res res' videos' H Hall; simpl in H.
  - exists []; reflexivity.
  - apply bind_Ok in H; destruct H as [[toks video'] [He H]].
    apply bind_Ok in H; destruct H as [[res'' rest'] [Hl H]].
    inversion H; subst.
    destruct (IH _ _ _ Hl Hall) as [l Hrest].
    destruct (inputLoop_appends _ _ _ _ Hl) as [more ->].
    apply all_str_app in Hall; destruct Hall as [Hall _].
    apply all_str_app in Hall; destruct Hall as [_ Htoks].
    destruct (inputEntry_strs_inv _ _ _ He Htoks) as [t Ht].
    simpl; rewrite Ht, Hrest; eexists; reflexivity.
Qed.

Lemma cmd_inputs_strs_inv : forall d res res' d2,
  cmd_inputs d res = Ok (res', d2) -> all_str res' ->
  exists input toks, dict_get d "input" = Some input /\ input_strs input = Ok toks.
Proof.
  intros d res res' d2 H Hall; unfold cmd_inputs, lookup in H.
  apply bind_Ok in H; destruct H as [input [Hin H]].
  apply getitem_Ok in Hin; destruct Hin as [d' [Hd' Hin]]; inversion Hd'; subst d'.
  exists input.
  destruct input;
    try (inversion H; subst; apply all_str_app in Hall; destruct Hall as [_ Hall];
         inversion Hall as [|? ? _ Hall']; subst;
         inversion Hall' as [|? ? [s Hs] _]; subst; discriminate).
  - eexists; split; [assumption | reflexivity].
  - apply bind_Ok in H; destruct H as [[res'' videos'] [Hl H]].
    inversion H; subst.
    destruct (inputLoop_strs_inv _ _ _ _ Hl Hall) as [ll Hll].
    unfold input_strs; rewrite Hll; eexists; split; [assumption | reflexivity].
Qed.

Lemma cmd_filter_strs_inv : forall d res res',
  cmd_filter d res = Ok res' -> exists toks, chain_strs d = Ok toks.
Proof.
  intros d res res' H; unfold cmd_filter in H; unfold chain_strs, flag.
  destruct (dict_get d "filter_complex") as [fc|]; [|eexists; reflexivity].
  apply bind_Ok in H; destruct H as [res1 [H1 H]].
  apply bind_Ok in H; destruct H as [na [Hna H]].
  apply bind_Ok in H; destruct H as [nv [Hnv H]].
  assert (Harg : exists arg, chain_arg fc = Ok arg).
  { destruct fc; try (eexists; reflexivity).
    apply bind_Ok in H1; destruct H1 as [s [Hs _]].
    simpl; rewrite Hs; eexists; reflexivity. }
  destruct Harg as [arg Harg].
  rewrite Harg, Hna; cbn [bind]; rewrite Hnv; eexists; reflexivity.
Qed.

Lemma cmd_codecs_strs_inv : forall d res res',
  cmd_codecs d res = Ok res' -> all_str res' ->
  exists toks, codec_strs d = Ok toks.
Proof.
  intros d res res' H Hall; unfold cmd_codecs in H; unfold codec_strs, codec_name, flag.
  apply bind_Ok in H; destruct H as [na [Hna H]].
  apply bind_Ok in H; destruct H as [res1 [H1 H]].
  apply bind_Ok in H; destruct H as [nv [Hnv H]].
  rewrite Hna; cbn [bind].
  assert (Hres1 : all_str res1).
  { destruct nv; cbn [negb] in H; [inversion H; subst; assumption|].
    apply bind_Ok in H; destruct H as [c [_ H]].
    inversion H; subst; apply all_str_app in Hall; tauto. }
  assert (Ha : exists a,
            (if na then Ok []
             else codec <- (codec <- get_default (dict_get_default d "codec" (PDict []))
                                       "audio" (PStr "aac") ;; as_str codec) ;;
                  Ok ["-c:a"; codec]) = Ok a).
  { destruct na; cbn [negb] in H1; [eexists; reflexivity|].
    apply bind_Ok in H1; destruct H1 as [c [Hc H1]].
    inversion H1; subst.
    apply all_str_app in Hres1; destruct Hres1 as [_ Hc'].
    inversion Hc' as [|? ? _ Hc'']; subst.
    inversion Hc'' as [|? ? [s ->] _]; subst.
    rewrite Hc; eexists; reflexivity. }
  destruct Ha as [a Ha]; rewrite Ha; cbn [bind]; rewrite Hnv; cbn [bind].
  destruct nv; cbn [negb] in H; [eexists; reflexivity|].
  apply bind_Ok in H; destruct H as [c [Hc H]].
  inversion H; subst.
  apply all_str_app in Hall; destruct Hall as [_ Hc'].
  inversion Hc' as [|? ? _ Hc'']; subst.
  inversion Hc'' as [|? ? [s ->] _]; subst.
  rewrite Hc; eexists; reflexivity.
Qed.

Lemma cmd_tail_strs_inv : forall d res res',
  cmd_tail d res = Ok res' -> all_str res' ->
  dict_get d "attributes" = Some (dict_get_default d "attributes" (PList [])) ->
  exists toks, tail_strs d = Ok toks.
Proof.
  intros d res res' H Hall Hattrs.
  destruct (cmd_tail_shape _ _ _ H) as [mid [out [Hout Hres']]].
  unfold cmd_tail, lookup at 1, getitem in H; rewrite Hattrs in H; cbn [bind] in H.
  apply bind_Ok in H; destruct H as [vsync [Hvs H]].
  apply bind_Ok in H; destruct H as [res0 [Hm _]].
  unfold tail_strs, flag, movflags_strs, lookup, getitem.
  rewrite Hvs, Hout; cbn [bind].
  assert (Hmv : exists mv,
            match dict_get d "movflags" with
            | Some flags => movflags <- str_join " " flags ;; Ok ["-movflags " ++ movflags]
            | None => Ok []
            end = Ok mv).
  { destruct (dict_get d "movflags") as [flags|]; [|eexists; reflexivity].
    apply bind_Ok in Hm; destruct Hm as [m [Hm _]].
    rewrite Hm; eexists; reflexivity. }
  destruct Hmv as [mv Hmv]; rewrite Hmv; cbn [bind].
  subst res'.
  apply all_str_app in Hall; destruct Hall as [_ Hall].
  apply all_str_app in Hall; destruct Hall as [_ Hall].
  apply all_str_app in Hall; destruct Hall as [_ Hall].
  inversion Hall as [|? ? _ Hall']; subst.
  inversion Hall' as [|? ? [s ->] _]; subst.
  eexists; reflexivity.
Qed.

Lemma genVideoCmd_strs_inv : forall d cmd config',
  genVideoCmd (PDict d) = Ok (cmd, config') ->
  exists toks, clip_strs d = Ok toks.
Proof.
  intros d cmd config' H.
  apply genVideoCmd_Ok in H.
  destruct H as [d0 [res1 [d2 [res2 [res3 [res4 [Hd [H1 [H2 [H3 [H4 [H5 _]]]]]]]]]]]].
  inversion Hd; subst d0; clear Hd.
  destruct (cmd_inputs_fields _ _ _ _ H1) as [Hattrs [Hinput Hsame]].
  destruct (parts_after_inputs _ _ Hattrs Hsame) as [Ef [Ec Et]].
  apply str_join_list_Ok in H5; destruct H5 as [strs [Hstrs _]].
  assert (Hall4 : all_str res4) by (rewrite Hstrs; apply all_str_strings).
  assert (Hall3 : all_str res3).
  { destruct (cmd_tail_shape _ _ _ H4) as [mid [out [_ Hres]]].
    rewrite Hres in Hall4; apply all_str_app in Hall4; tauto. }
  assert (Hall2 : all_str res2).
  { destruct (cmd_codecs_appends _ _ _ H3) as [t Hres].
    rewrite Hres in Hall3; apply all_str_app in Hall3; tauto. }
  assert (Hall1 : all_str res1).
  { destruct (cmd_filter_appends _ _ _ H2) as [t Hres].
    rewrite Hres in Hall2; apply all_str_app in Hall2; tauto. }
  destruct (cmd_inputs_strs_inv _ _ _ _ H1 Hall1) as [input [i [Hin Hi]]].
  rewrite Hinput in Hin.
  destruct (cmd_filter_strs_inv _ _ _ H2) as [f Hf]; rewrite Ef in Hf.
  destruct (cmd_codecs_strs_inv _ _ _ H3 Hall3) as [c Hc]; rewrite Ec in Hc.
  destruct (cmd_tail_strs_inv _ _ _ H4 Hall4) as [t Ht].
  { rewrite Hattrs; unfold dict_get_default at 2; rewrite Hattrs; reflexivity. }
  rewrite Et in Ht.
  unfold clip_strs, lookup, getitem.
  rewrite Hin; cbn [bind]; rewrite Hi; cbn [bind]; rewrite Hf; cbn [bind].
  rewrite Hc; cbn [bind]; rewrite Ht; eexists; reflexivity.
Qed.

(** X13: [_genVideoCmd] succeeds exactly on the clips all of whose parts can
    be written as texts: an [input] that is a string or a list of strings
    and of mappings with an ['i'] key, a filter chain that renders if it is
    a list, attributes that can be searched, string codecs where they are
    used, movflags that can be joined and a string output.  The command is
    then their tokens in the order executable, inputs, filter, codecs,
    metadata, vsync, movflags, output, with one space between every two. *)
Theorem genVideoCmd_parts : forall d cmd config',
  genVideoCmd (PDict d) = Ok (cmd, config') <->
  exists toks,
    clip_strs d = Ok toks
    /\ cmd = String.concat " " toks
    /\ config' = clip_after d cmd.
Proof.
  intros d cmd config'; split.
  - intros H.
    destruct (genVideoCmd_strs_inv _ _ _ H) as [toks Htoks].
    pose proof (genVideoCmd_of_strs _ _ Htoks) as H'.
    rewrite H in H'; inversion H'; subst.
    exists toks; auto.
  - intros [toks [Htoks [-> ->]]].
    apply genVideoCmd_of_strs; assumption.
Qed.

Lemma genVideoCmd_parts_witness :
  genVideoCmd (PDict options_clip)
  = Ok (options_clip_cmd, clip_after options_clip options_clip_cmd).
Proof.
  apply (proj2 (genVideoCmd_parts options_clip options_clip_cmd
                  (clip_after options_clip options_clip_cmd))).
  exists ["ffmpeg"; "-hide_banner"; "-ss 3"; "-t 5"; "-i a.mp4"; "-vf"; default_scale;
          "-c:a"; "aac"; "-c:v"; "h264"; "-map_metadata"; "-1"; "-y"; "build/a.mp4"].
  repeat split; reflexivity.
Defined.

(** ** [_genVideoCmd]: the command as a text *)










